(** * GenMotionPhoto: container assembly pipelines

    A shallow embedding of the three assemblers of the repository

      - [GenMotionPhoto.py]         primary image + video,
      - [GenUltraHDRPhoto.py]       primary image + gain map,
      - [GenUltraHdrMotionPhoto.py] primary image + gain map + video,

    and the properties of their descriptors, of the two-pass injection,
    of finalisation and of the appended segments.

    The Python code is effectful: it reads and writes files, creates
    directories and calls ExifTool as a subprocess.  The embedding threads
    an explicit [world] (file system, working directory, history of
    subprocess calls) through an exception monad.  ExifTool itself is not
    part of the repository: it is a parameter of the development, a
    function from its command line and the two files it is handed to an
    exit status, captured streams and the rewritten image. *)

From Stdlib Require Import ZArith Ascii String DecimalString Strings.Byte.
From Stdlib Require DecimalPos DecimalZ.
From stdpp Require Import gmap strings list fin_maps.

Open Scope string_scope.
Open Scope list_scope.

(** ** Text *)

Module Text.

(** The double quote and the line feed, which the Python literals contain. *)
Definition dq : string := String "034"%char EmptyString.
Definition nl : string := String "010"%char EmptyString.

(** [q s] is [s] between double quotes, as in an XML attribute value. *)
Definition q (s : string) : string := dq +:+ s +:+ dq.

(** ASCII white space, the characters [str.strip()] removes. *)
Definition is_space (c : ascii) : bool :=
  let n := nat_of_ascii c in
  (((9 <=? n) && (n <=? 13)) || ((28 <=? n) && (n <=? 32)))%nat.

(** [s.startswith(p)] *)
Fixpoint startswith (p s : string) : bool :=
  match p, s with
  | EmptyString, _ => true
  | String a p', String b s' => Ascii.eqb a b && startswith p' s'
  | String _ _, EmptyString => false
  end.

Fixpoint lstrip (s : string) : string :=
  match s with
  | EmptyString => EmptyString
  | String c s' => if is_space c then lstrip s' else s
  end.

Fixpoint rstrip (s : string) : string :=
  match s with
  | EmptyString => EmptyString
  | String c s' =>
      match rstrip s' with
      | EmptyString => if is_space c then EmptyString else String c EmptyString
      | r => String c r
      end
  end.

Definition strip (s : string) : string := lstrip (rstrip s).

(** [str(n)] for a Python [int]. *)
Definition str_int (n : Z) : string := NilZero.string_of_int (Z.to_int n).

(** Values of the tone-mapping dictionary.  The code only ever formats
    them, so a [float] is represented by the decimal numeral that its
    [repr] prints ([2.1], [0.015625], [1e-07]); [repr] is one-to-one on
    finite floats. *)
Inductive pyvalue :=
| PyInt (z : Z)
| PyFloat (d : Decimal.decimal).

Definition str_exponent (e : Decimal.signed_int) : string :=
  match e with
  | Decimal.Pos d => "e+" +:+ NilZero.string_of_uint d
  | Decimal.Neg d => "e-" +:+ NilZero.string_of_uint d
  end.

Definition str_float (d : Decimal.decimal) : string :=
  match d with
  | Decimal.Decimal i f =>
      NilZero.string_of_int i +:+ "." +:+ NilZero.string_of_uint f
  | Decimal.DecimalExp i Decimal.Nil e =>
      NilZero.string_of_int i +:+ str_exponent e
  | Decimal.DecimalExp i f e =>
      NilZero.string_of_int i +:+ "." +:+ NilZero.string_of_uint f
        +:+ str_exponent e
  end.

(** What an f-string prints for [{v}]. *)
Definition str (v : pyvalue) : string :=
  match v with
  | PyInt z => str_int z
  | PyFloat d => str_float d
  end.

(** The float literals of the sources. *)
Definition f0_0 : pyvalue :=
  PyFloat (Decimal.Decimal (Decimal.Pos (Decimal.D0 Decimal.Nil)) (Decimal.D0 Decimal.Nil)).
Definition f1_0 : pyvalue :=
  PyFloat (Decimal.Decimal (Decimal.Pos (Decimal.D1 Decimal.Nil)) (Decimal.D0 Decimal.Nil)).
Definition f2_0 : pyvalue :=
  PyFloat (Decimal.Decimal (Decimal.Pos (Decimal.D2 Decimal.Nil)) (Decimal.D0 Decimal.Nil)).
Definition f2_1 : pyvalue :=
  PyFloat (Decimal.Decimal (Decimal.Pos (Decimal.D2 Decimal.Nil)) (Decimal.D1 Decimal.Nil)).

(** [params.get(key, default)] *)
Definition get (params : gmap string pyvalue) (key : string) (default : pyvalue)
  : pyvalue :=
  match params !! key with
  | Some v => v
  | None => default
  end.

(** *** Reading a descriptor

    What a consumer of the container does with the XMP text: the text of
    every element [<tag>...</tag>], in document order. *)

Fixpoint string_drop (n : nat) (s : string) : string :=
  match n, s with
  | O, _ => s
  | S n', String _ s' => string_drop n' s'
  | S _, EmptyString => EmptyString
  end.

Fixpoint until_lt (s : string) : string :=
  match s with
  | EmptyString => EmptyString
  | String c s' => if Ascii.eqb c "<"%char then EmptyString else String c (until_lt s')
  end.

Definition open_tag (tag : string) : string := "<" +:+ tag +:+ ">".

Fixpoint element_texts (tag : string) (s : string) : list string :=
  match s with
  | EmptyString => []
  | String _ s' =>
      if startswith (open_tag tag) s
      then until_lt (string_drop (String.length (open_tag tag)) s) :: element_texts tag s'
      else element_texts tag s'
  end.

(** Texts without [<], as the numerals are. *)
Fixpoint no_lt (s : string) : bool :=
  match s with
  | EmptyString => true
  | String c s' => negb (Ascii.eqb c "<"%char) && no_lt s'
  end.

(** One entry of [GContainer:Directory]. *)
Record item := Item { Mime : string; Semantic : string; Length : string }.

Fixpoint zip_items (ms ss ls : list string) : list item :=
  match ms, ss, ls with
  | m :: ms', s :: ss', l :: ls' => Item m s l :: zip_items ms' ss' ls'
  | _, _, _ => []
  end.

Definition directory (xmp : string) : list item :=
  zip_items (element_texts "Item:Mime" xmp) (element_texts "Item:Semantic" xmp)
            (element_texts "Item:Length" xmp).

End Text.

(** ** Paths: [posixpath] *)

Module Path.

Definition sep : ascii := "/"%char.

(** [p.startswith('/')] *)
Definition isabs (p : string) : bool :=
  match p with
  | String c _ => Ascii.eqb c sep
  | EmptyString => false
  end.

Fixpoint endswith_sep (p : string) : bool :=
  match p with
  | EmptyString => false
  | String c EmptyString => Ascii.eqb c sep
  | String _ p' => endswith_sep p'
  end.

(** [os.path.join(a, b)] *)
Definition join (a b : string) : string :=
  if isabs b then b
  else if String.eqb a EmptyString || endswith_sep a then a +:+ b
  else a +:+ "/" +:+ b.

(** [rsplit p] cuts [p] after its last separator: [Some (head, tail)] with
    [head] ending in the separator, [None] when there is none. *)
Fixpoint rsplit (p : string) : option (string * string) :=
  match p with
  | EmptyString => None
  | String c p' =>
      match rsplit p' with
      | Some (h, t) => Some (String c h, t)
      | None => if Ascii.eqb c sep then Some (String c EmptyString, p') else None
      end
  end.

(** [os.path.basename(p)]: [p[p.rfind('/') + 1:]] *)
Definition basename (p : string) : string :=
  match rsplit p with
  | Some (_, t) => t
  | None => p
  end.

Fixpoint all_sep (p : string) : bool :=
  match p with
  | EmptyString => true
  | String c p' => Ascii.eqb c sep && all_sep p'
  end.

Fixpoint rstrip_sep (p : string) : string :=
  match p with
  | EmptyString => EmptyString
  | String c p' =>
      match rstrip_sep p' with
      | EmptyString => if Ascii.eqb c sep then EmptyString else String c EmptyString
      | r => String c r
      end
  end.

(** [os.path.dirname(p)] *)
Definition dirname (p : string) : string :=
  match rsplit p with
  | Some (h, _) => if all_sep h then h else rstrip_sep h
  | None => EmptyString
  end.

(** [p.split('/')] *)
Fixpoint split (p : string) : list string :=
  match p with
  | EmptyString => [EmptyString]
  | String c p' =>
      if Ascii.eqb c sep then EmptyString :: split p'
      else match split p' with
           | comp :: comps => String c comp :: comps
           | [] => [String c EmptyString]
           end
  end.

(** The loop of [normpath]; [new_comps] is kept in reverse. *)
Fixpoint norm_comps (initial_slashes : nat) (comps new_comps : list string)
  : list string :=
  match comps with
  | [] => rev new_comps
  | comp :: comps' =>
      if String.eqb comp EmptyString || String.eqb comp "." then
        norm_comps initial_slashes comps' new_comps
      else if negb (String.eqb comp "..")
              || ((initial_slashes =? 0)%nat && bool_decide (new_comps = []))
              || match new_comps with
                 | last :: _ => String.eqb last ".."
                 | [] => false
                 end
      then norm_comps initial_slashes comps' (comp :: new_comps)
      else norm_comps initial_slashes comps' (tail new_comps)
  end.

(** [os.path.normpath(p)] *)
Definition normpath (p : string) : string :=
  if String.eqb p EmptyString then "." else
  let initial_slashes :=
    if isabs p then
      if Text.startswith "//" p && negb (Text.startswith "///" p) then 2 else 1
    else 0 in
  let path := String.concat "/" (norm_comps initial_slashes (split p) []) in
  let path :=
    match initial_slashes with
    | 0 => path
    | 1 => "/" +:+ path
    | _ => "//" +:+ path
    end in
  if String.eqb path EmptyString then "." else path.

(** [os.path.abspath(p)], with the working directory made explicit. *)
Definition abspath (cwd p : string) : string :=
  normpath (if isabs p then p else join cwd p).

(** The key of the file a path names when it is handed to the operating
    system: the absolute normalised path, looked up from the working
    directory.  The empty path names no file.  Symbolic links and
    permissions are not modelled. *)
Definition resolve (cwd p : string) : string :=
  if String.eqb p EmptyString then EmptyString else abspath cwd p.

(** [under d k]: [k] is [d] or lies below it. *)
Definition under (d k : string) : bool :=
  String.eqb d k || Text.startswith (d +:+ "/") k.

(** The directory [k] and the directories above it, from the top down;
    the root itself is always there and is left out. *)
Fixpoint chain_from (prefix : string) (comps : list string) : list string :=
  match comps with
  | [] => []
  | comp :: comps' =>
      let here := prefix +:+ "/" +:+ comp in
      here :: chain_from here comps'
  end.

Definition chain (k : string) : list string :=
  chain_from (if Text.startswith "//" k && negb (Text.startswith "///" k)
              then "/" else EmptyString)
             (filter (λ c, c ≠ EmptyString) (split k)).

End Path.

(** ** The operating system: files, directories, subprocesses *)

Module Os.

#[global] Instance byte_eq_dec : EqDecision Byte.byte := Strings.Byte.byte_eq_dec.

(** Exceptions that reach the caller. *)
Inductive exn :=
| FileNotFoundError (path : string)
| FileExistsError (path : string)
| NotADirectoryError (path : string)
| IsADirectoryError (path : string)
| SameFileError (path : string)
| ShutilError (path : string)
| ValueError (path : string)
| CalledProcessError (returncode : Z) (cmd : list string) (stdout stderr : string).

Inductive result (A : Type) :=
| Ok (a : A)
| Raise (e : exn).
Arguments Ok {A} a.
Arguments Raise {A} e.

(** What one run of ExifTool leaves behind: its exit status, the captured
    streams, and the bytes of the image file it was pointed at. *)
Record exit := Exit {
  returncode : Z;
  stdout : string;
  stderr : string;
  image : list Byte.byte
}.

(** One entry of the subprocess history: one call of ExifTool. *)
Record call := Call {
  argv : list string;
  before : list Byte.byte;      (* the image file when the tool starts *)
  descriptor : list Byte.byte;  (* the file named by [-xmp<=] *)
  after : exit
}.

(** What a path names: a regular file with its bytes, or a directory. *)
Inductive node :=
| File (data : list Byte.byte)
| Dir.

(** The file system is keyed by absolute normalised path. *)
Record world := World {
  nodes : gmap string node;
  cwd : string;
  exiftool : list string → list Byte.byte → list Byte.byte → exit;
  calls : list call
}.

Definition with_nodes (f : gmap string node → gmap string node) (w : world)
  : world :=
  World (f (nodes w)) (cwd w) (exiftool w) (calls w).

(** The key a path names. *)
Definition resolve (w : world) (p : string) : string := Path.resolve (cwd w) p.

(** The bytes of the regular file at a key. *)
Definition file_at (w : world) (k : string) : option (list Byte.byte) :=
  match nodes w !! k with
  | Some (File data) => Some data
  | _ => None
  end.

(** State and exceptions. *)
Definition M (A : Type) : Type := world → result A * world.

#[global] Instance M_ret : MRet M := λ A a w, (Ok a, w).

#[global] Instance M_bind : MBind M := λ A B f m w,
  match m w with
  | (Ok a, w') => f a w'
  | (Raise e, w') => (Raise e, w')
  end.

Definition raise {A} (e : exn) : M A := λ w, (Raise e, w).

(** [os.path.abspath(p)] *)
Definition abspath (p : string) : M string := λ w,
  (Ok (Path.abspath (cwd w) p), w).

(** [os.path.exists(p)] *)
Definition exists_ (p : string) : M bool := λ w,
  match nodes w !! resolve w p with
  | Some _ => (Ok true, w)
  | None => (Ok false, w)
  end.

(** [st_size] of a directory; the value is that of common Linux file
    systems and plays no part below. *)
Definition dir_size : Z := 4096.

(** [os.path.getsize(p)] *)
Definition getsize (p : string) : M Z := λ w,
  match nodes w !! resolve w p with
  | Some (File data) => (Ok (Z.of_nat (length data)), w)
  | Some Dir => (Ok dir_size, w)
  | None => (Raise (FileNotFoundError p), w)
  end.

(** [open(p, 'rb')] followed by [read()] *)
Definition read_binary (p : string) : M (list Byte.byte) := λ w,
  match nodes w !! resolve w p with
  | Some (File data) => (Ok data, w)
  | Some Dir => (Raise (IsADirectoryError p), w)
  | None => (Raise (FileNotFoundError p), w)
  end.

(** Opening [p] for writing: [old] is what the file holds ([[]] when it is
    created), [new old] what it holds afterwards.  A file is created only
    in a directory that exists. *)
Definition open_write (p : string) (new : list Byte.byte → list Byte.byte)
  : M unit := λ w,
  let k := resolve w p in
  match nodes w !! k with
  | Some (File old) => (Ok (), with_nodes <[k := File (new old)]> w)
  | Some Dir => (Raise (IsADirectoryError p), w)
  | None =>
      match nodes w !! Path.dirname k with
      | Some Dir => (Ok (), with_nodes <[k := File (new [])]> w)
      | _ => (Raise (FileNotFoundError p), w)
      end
  end.

(** [open(p, 'wb')] followed by [write(data)]: the file is truncated. *)
Definition write_binary (p : string) (data : list Byte.byte) : M unit :=
  open_write p (λ _, data).

(** [open(p, 'w', encoding='utf-8')] followed by [write(text)] *)
Definition write_text (p : string) (text : string) : M unit :=
  write_binary p (list_byte_of_string text).

(** [open(p, 'ab')] followed by [write(data)] *)
Definition append_binary (p : string) (data : list Byte.byte) : M unit :=
  open_write p (λ old, old ++ data).

(** [open(p, 'ab')] alone: the file is created when it is not there.
    Bytes written through the handle reach the file in the order of the
    writes; buffering is not modelled. *)
Definition open_append (p : string) : M unit :=
  open_write p (λ old, old).

(** [os.remove(p)] *)
Definition remove (p : string) : M unit := λ w,
  let k := resolve w p in
  match nodes w !! k with
  | Some (File _) => (Ok (), with_nodes (delete k) w)
  | Some Dir => (Raise (IsADirectoryError p), w)
  | None => (Raise (FileNotFoundError p), w)
  end.

(** [shutil.copyfile(src, dst)] *)
Definition copyfile (src dst : string) : M unit := λ w,
  match nodes w !! resolve w src with
  | Some (File data) =>
      if bool_decide (resolve w src = resolve w dst)
      then (Raise (SameFileError src), w)
      else write_binary dst data w
  | Some Dir => (Raise (IsADirectoryError src), w)
  | None => (Raise (FileNotFoundError src), w)
  end.

(** [shutil.copy2(src, dst)]: into [dst] when [dst] is a directory. *)
Definition copy2 (src dst : string) : M unit := λ w,
  match nodes w !! resolve w dst with
  | Some Dir => copyfile src (Path.join dst (Path.basename src)) w
  | _ => copyfile src dst w
  end.

(** [shutil.move(src, dst)] of a regular file *)
Definition move (src dst : string) : M unit := λ w,
  let ks := resolve w src in
  match nodes w !! ks with
  | Some (File data) =>
      match nodes w !! resolve w dst with
      | Some Dir =>
          let real_dst := Path.join dst (Path.basename (Path.rstrip_sep src)) in
          match nodes w !! resolve w real_dst with
          | Some _ => (Raise (ShutilError real_dst), w)
          | None =>
              (Ok (), with_nodes (λ fs, <[resolve w real_dst := File data]>
                                          (delete ks fs)) w)
          end
      | Some (File _) =>
          if bool_decide (ks = resolve w dst) then (Ok (), w)
          else (Ok (), with_nodes (λ fs, <[resolve w dst := File data]>
                                           (delete ks fs)) w)
      | None =>
          match nodes w !! Path.dirname (resolve w dst) with
          | Some Dir =>
              (Ok (), with_nodes (λ fs, <[resolve w dst := File data]>
                                          (delete ks fs)) w)
          | _ => (Raise (FileNotFoundError dst), w)
          end
      end
  | _ => (Raise (FileNotFoundError src), w)
  end.

(** [os.makedirs(name, exist_ok=True)]: the directory and those above it
    are created unless a regular file is in the way. *)
Definition is_file (w : world) (k : string) : bool :=
  match nodes w !! k with
  | Some (File _) => true
  | _ => false
  end.

Definition makedirs (name : string) : M unit := λ w,
  if String.eqb name EmptyString then (Raise (FileNotFoundError name), w) else
  let k := resolve w name in
  match List.find (is_file w) (Path.chain k) with
  | Some d => if bool_decide (d = k) then (Raise (FileExistsError name), w)
              else (Raise (NotADirectoryError name), w)
  | None =>
      (Ok (), with_nodes (λ fs, foldr (λ d, <[d := Dir]>) fs (Path.chain k)) w)
  end.

(** [with tempfile.TemporaryDirectory() as tmp_dir: body].  The name
    [tmp_dir] is the one [mkdtemp] picks; the directory and all below it
    are removed when the block is left, normally or by an exception. *)
Definition rmtree (d : string) (w : world) : world :=
  with_nodes (filter (λ kv, Path.under d kv.1 = false)) w.

Definition TemporaryDirectory {A} (tmp_dir : string) (body : string → M A) : M A :=
  λ w,
    let '(r, w') := body tmp_dir (with_nodes <[tmp_dir := Dir]> w) in
    (r, rmtree tmp_dir w').

(** The descriptor file an ExifTool command line names: the argument
    [-xmp<=FILE]. *)
Definition xmp_argument (cmd : list string) : string :=
  match List.find (Text.startswith "-xmp<=") cmd with
  | Some a => Text.string_drop 6 a
  | None => EmptyString
  end.

(** [subprocess.run(cmd, check=True, capture_output=True)] for an ExifTool
    command line [exiftool OPTIONS... FILE], with ExifTool installed.  The
    tool reads the descriptor and rewrites FILE in place, whatever its
    exit status, and touches no other file; it is not asked about files
    that are not there, for which it reports an error itself. *)
Definition subprocess_run (cmd : list string) : M exit := λ w,
  let k := resolve w (List.last cmd EmptyString) in
  match file_at w k, file_at w (resolve w (xmp_argument cmd)) with
  | Some img, Some xmp =>
      let r := exiftool w cmd img xmp in
      let w' := World (<[k := File (image r)]> (nodes w)) (cwd w) (exiftool w)
                      (calls w ++ [Call cmd img xmp r]) in
      if (returncode r =? 0)%Z then (Ok r, w')
      else (Raise (CalledProcessError (returncode r) cmd (stdout r) (stderr r)), w')
  | _, _ =>
      (Raise (CalledProcessError 1 cmd EmptyString "Error: File not found"), w)
  end.

(** [try: m except subprocess.CalledProcessError as e: handler e] *)
Definition try_except {A} (m : M A) (handler : exn → M A) : M A := λ w,
  match m w with
  | (Raise (CalledProcessError rc cmd out err), w') =>
      handler (CalledProcessError rc cmd out err) w'
  | r => r
  end.

(** [if b: m] *)
Definition when (b : bool) (m : M unit) : M unit :=
  if b then m else mret ().

(** [for x in xs: body x] *)
Fixpoint for_each {A} (xs : list A) (body : A → M unit) : M unit :=
  match xs with
  | [] => mret ()
  | x :: xs' => body x;; for_each xs' body
  end.

End Os.

(** ** [GenMotionPhoto.py] *)

Module GenMotionPhoto.
Import Text Os.

(** The f-string of [create_xmp_file], one list entry per source line. *)
Definition xmp_content (image_length video_length : Z) : string :=
  String.concat nl [
    "<x:xmpmeta xmlns:x=" +:+ dq +:+ "adobe:ns:meta/" +:+ dq +:+ " x:xmptk=" +:+ dq +:+ "Adobe XMP Core 5.1.0" +:+ dq +:+ ">";
    " <rdf:RDF xmlns:rdf=" +:+ dq +:+ "http://www.w3.org/1999/02/22-rdf-syntax-ns#" +:+ dq +:+ ">";
    "  <rdf:Description rdf:about=" +:+ dq +:+ dq;
    "    xmlns:GCamera=" +:+ dq +:+ "http://ns.google.com/photos/1.0/camera/" +:+ dq;
    "    xmlns:GContainer=" +:+ dq +:+ "http://ns.google.com/photos/1.0/container/" +:+ dq;
    "    xmlns:Item=" +:+ dq +:+ "http://ns.google.com/photos/1.0/container/item/" +:+ dq +:+ ">";
    "   <GCamera:MotionPhoto>1</GCamera:MotionPhoto>";
    "   <GCamera:MotionPhotoVersion>1</GCamera:MotionPhotoVersion>";
    "   <GCamera:MotionPhotoPresentationTimestampUs>0</GCamera:MotionPhotoPresentationTimestampUs>";
    "   <GContainer:Directory>";
    "    <rdf:Seq>";
    "     <rdf:li rdf:parseType=" +:+ dq +:+ "Resource" +:+ dq +:+ ">";
    "      <Item:Mime>image/jpeg</Item:Mime>";
    "      <Item:Semantic>Primary</Item:Semantic>";
    "      <Item:Length>" +:+ str_int image_length +:+ "</Item:Length>";
    "      <Item:Padding>0</Item:Padding>";
    "     </rdf:li>";
    "     <rdf:li rdf:parseType=" +:+ dq +:+ "Resource" +:+ dq +:+ ">";
    "      <Item:Mime>video/mp4</Item:Mime>";
    "      <Item:Semantic>MotionPhoto</Item:Semantic>";
    "      <Item:Length>" +:+ str_int video_length +:+ "</Item:Length>";
    "      <Item:Padding>0</Item:Padding>";
    "     </rdf:li>";
    "    </rdf:Seq>";
    "   </GContainer:Directory>";
    "  </rdf:Description>";
    " </rdf:RDF>";
    "</x:xmpmeta>"
  ].

Definition create_xmp_file (image_length video_length : Z) (tmp_dir : string)
  : M string :=
  let xmp_path := Path.join tmp_dir "motion.xmp" in
  write_text xmp_path (strip (xmp_content image_length video_length));;
  mret xmp_path.

(** The command line [apply_metadata] builds. *)
Definition cmd (file_path xmp_path : string) : list string :=
  let exiftool_path := "exiftool" in
  [exiftool_path; "-overwrite_original"; "-n"; "-xmp<=" +:+ xmp_path; file_path].

(** The handler logs the captured error stream and raises the exception
    again. *)
Definition apply_metadata (file_path xmp_path : string) : M bool :=
  try_except
    (result ← subprocess_run (cmd file_path xmp_path);
     mret true)
    (λ e, raise e).

(** [tmp_dir] is the directory [tempfile.TemporaryDirectory()] creates. *)
Definition gen_motion_photo (photo_path video_path output_dir : string)
    (tmp_dir : string) : M unit :=
  abs_photo ← abspath photo_path;
  abs_video ← abspath video_path;
  let file_name := Path.basename photo_path in
  output_path ← abspath (Path.join output_dir file_name);
  makedirs output_dir;;
  video_exists ← exists_ abs_video;
  if negb video_exists then raise (FileNotFoundError abs_video) else
  video_size ← getsize abs_video;
  TemporaryDirectory tmp_dir (λ tmp_dir,
    let tmp_photo := Path.join tmp_dir "temp_image.jpg" in
    copy2 abs_photo tmp_photo;;
    current_size ← getsize tmp_photo;
    xmp_file ← create_xmp_file current_size video_size tmp_dir;
    apply_metadata tmp_photo xmp_file;;
    final_image_size ← getsize tmp_photo;
    xmp_file_final ← create_xmp_file final_image_size video_size tmp_dir;
    apply_metadata tmp_photo xmp_file_final;;
    output_exists ← exists_ output_path;
    when output_exists (remove output_path);;
    move tmp_photo output_path;;
    final_offset ← getsize output_path;
    mret ());;
  video_data ← read_binary abs_video;
  append_binary output_path video_data.

End GenMotionPhoto.

(** ** [GenUltraHDRPhoto.py] *)

Module GenUltraHDRPhoto.
Import Text Os.

(** The f-string of [create_ultrahdr_xmp].  [image_length] does not occur
    in it: the Primary entry reads [<Item:Length>0</Item:Length>]. *)
Definition xmp_content (image_length gainmap_length : Z)
    (params : gmap string pyvalue) : string :=
  let gm_min := get params "gainMapMin" f0_0 in
  let gm_max := get params "gainMapMax" f1_0 in
  let gamma := get params "gamma" f1_0 in
  let h_min := get params "hdrCapacityMin" f0_0 in
  let h_max := get params "hdrCapacityMax" f2_0 in
  String.concat nl [
    "<x:xmpmeta xmlns:x=" +:+ dq +:+ "adobe:ns:meta/" +:+ dq +:+ " x:xmptk=" +:+ dq +:+ "Adobe XMP Core 5.1.0" +:+ dq +:+ ">";
    " <rdf:RDF xmlns:rdf=" +:+ dq +:+ "http://www.w3.org/1999/02/22-rdf-syntax-ns#" +:+ dq +:+ ">";
    "  <rdf:Description rdf:about=" +:+ dq +:+ dq;
    "    xmlns:GContainer=" +:+ dq +:+ "http://ns.google.com/photos/1.0/container/" +:+ dq;
    "    xmlns:Item=" +:+ dq +:+ "http://ns.google.com/photos/1.0/container/item/" +:+ dq;
    "    xmlns:hdrgm=" +:+ dq +:+ "http://ns.adobe.com/hdr-gain-map/1.0/" +:+ dq +:+ ">";
    "   <hdrgm:Version>1.0</hdrgm:Version>";
    "   <hdrgm:GainMapMin>" +:+ str gm_min +:+ "</hdrgm:GainMapMin>";
    "   <hdrgm:GainMapMax>" +:+ str gm_max +:+ "</hdrgm:GainMapMax>";
    "   <hdrgm:Gamma>" +:+ str gamma +:+ "</hdrgm:Gamma>";
    "   <hdrgm:OffsetSDR>0.015625</hdrgm:OffsetSDR>";
    "   <hdrgm:OffsetHDR>0.015625</hdrgm:OffsetHDR>";
    "   <hdrgm:HDRCapacityMin>" +:+ str h_min +:+ "</hdrgm:HDRCapacityMin>";
    "   <hdrgm:HDRCapacityMax>" +:+ str h_max +:+ "</hdrgm:HDRCapacityMax>";
    "   <hdrgm:BaseRendition>SDR</hdrgm:BaseRendition>";
    "   <GContainer:Directory>";
    "    <rdf:Seq>";
    "     <rdf:li rdf:parseType=" +:+ dq +:+ "Resource" +:+ dq +:+ ">";
    "      <Item:Mime>image/jpeg</Item:Mime>";
    "      <Item:Semantic>Primary</Item:Semantic>";
    "      <Item:Length>0</Item:Length>";
    "      <Item:Padding>0</Item:Padding>";
    "     </rdf:li>";
    "     <rdf:li rdf:parseType=" +:+ dq +:+ "Resource" +:+ dq +:+ ">";
    "      <Item:Mime>image/jpeg</Item:Mime>";
    "      <Item:Semantic>GainMap</Item:Semantic>";
    "      <Item:Length>" +:+ str_int gainmap_length +:+ "</Item:Length>";
    "      <Item:Padding>0</Item:Padding>";
    "     </rdf:li>";
    "    </rdf:Seq>";
    "   </GContainer:Directory>";
    "  </rdf:Description>";
    " </rdf:RDF>";
    "</x:xmpmeta>"
  ].

Definition create_ultrahdr_xmp (image_length gainmap_length : Z)
    (params : gmap string pyvalue) (tmp_dir : string) : M string :=
  let xmp_path := Path.join tmp_dir "ultrahdr.xmp" in
  write_text xmp_path (strip (xmp_content image_length gainmap_length params));;
  mret xmp_path.

Definition cmd (file_path xmp_path : string) : list string :=
  ["exiftool"; "-overwrite_original"; "-xmp<=" +:+ xmp_path;
   "-MPFVersion=0100"; "-NumberOfImages=2"; file_path].

Definition apply_ultrahdr_metadata (file_path xmp_path : string) : M unit :=
  subprocess_run (cmd file_path xmp_path);;
  mret ().

(** The body of the loop [for p in [abs_sdr, abs_gm]]. *)
Definition check_jpeg (p : string) : M unit :=
  p_exists ← exists_ p;
  if negb p_exists then raise (FileNotFoundError p) else
  data ← read_binary p;
  if bool_decide (take 2 data = [Byte.xff; Byte.xd8]) then mret ()
  else raise (ValueError p).

Definition gen_ultra_hdr (sdr_path gainmap_path output_path : string)
    (params : gmap string pyvalue) (tmp_dir : string) : M unit :=
  abs_sdr ← abspath sdr_path;
  abs_gm ← abspath gainmap_path;
  for_each [abs_sdr; abs_gm] check_jpeg;;
  gm_size ← getsize abs_gm;
  TemporaryDirectory tmp_dir (λ tmp_dir,
    let tmp_output := Path.join tmp_dir "hdr_base.jpg" in
    copy2 abs_sdr tmp_output;;
    xmp_file ← create_ultrahdr_xmp 0 gm_size params tmp_dir;
    apply_ultrahdr_metadata tmp_output xmp_file;;
    sdr_final_size ← getsize tmp_output;
    xmp_file_final ← create_ultrahdr_xmp sdr_final_size gm_size params tmp_dir;
    apply_ultrahdr_metadata tmp_output xmp_file_final;;
    output_exists ← exists_ output_path;
    when output_exists (remove output_path);;
    move tmp_output output_path);;
  gm_data ← read_binary abs_gm;
  append_binary output_path gm_data.

End GenUltraHDRPhoto.

(** ** [GenUltraHdrMotionPhoto.py] *)

Module GenUltraHdrMotionPhoto.
Import Text Os.

(** The f-string of [create_combined_xmp]. *)
Definition xmp_content (sdr_len gm_len video_len : Z)
    (params : gmap string pyvalue) : string :=
  let gm_min := get params "gainMapMin" f0_0 in
  let gm_max := get params "gainMapMax" f2_1 in
  let gamma := get params "gamma" f1_0 in
  let h_max := get params "hdrCapacityMax" f2_1 in
  String.concat nl [
    "<x:xmpmeta xmlns:x=" +:+ dq +:+ "adobe:ns:meta/" +:+ dq +:+ " x:xmptk=" +:+ dq +:+ "Adobe XMP Core 5.1.0" +:+ dq +:+ ">";
    " <rdf:RDF xmlns:rdf=" +:+ dq +:+ "http://www.w3.org/1999/02/22-rdf-syntax-ns#" +:+ dq +:+ ">";
    "  <rdf:Description rdf:about=" +:+ dq +:+ dq;
    "    xmlns:GCamera=" +:+ dq +:+ "http://ns.google.com/photos/1.0/camera/" +:+ dq;
    "    xmlns:GContainer=" +:+ dq +:+ "http://ns.google.com/photos/1.0/container/" +:+ dq;
    "    xmlns:Item=" +:+ dq +:+ "http://ns.google.com/photos/1.0/container/item/" +:+ dq;
    "    xmlns:hdrgm=" +:+ dq +:+ "http://ns.adobe.com/hdr-gain-map/1.0/" +:+ dq +:+ ">";
    "   <GCamera:MotionPhoto>1</GCamera:MotionPhoto>";
    "   <GCamera:MotionPhotoVersion>1</GCamera:MotionPhotoVersion>";
    "   <hdrgm:Version>1.0</hdrgm:Version>";
    "   <hdrgm:GainMapMin>" +:+ str gm_min +:+ "</hdrgm:GainMapMin>";
    "   <hdrgm:GainMapMax>" +:+ str gm_max +:+ "</hdrgm:GainMapMax>";
    "   <hdrgm:Gamma>" +:+ str gamma +:+ "</hdrgm:Gamma>";
    "   <hdrgm:HDRCapacityMax>" +:+ str h_max +:+ "</hdrgm:HDRCapacityMax>";
    "   <hdrgm:BaseRendition>SDR</hdrgm:BaseRendition>";
    "   <GContainer:Directory>";
    "    <rdf:Seq>";
    "     <rdf:li rdf:parseType=" +:+ dq +:+ "Resource" +:+ dq +:+ ">";
    "      <Item:Mime>image/jpeg</Item:Mime>";
    "      <Item:Semantic>Primary</Item:Semantic>";
    "      <Item:Length>" +:+ str_int sdr_len +:+ "</Item:Length>";
    "     </rdf:li>";
    "     <rdf:li rdf:parseType=" +:+ dq +:+ "Resource" +:+ dq +:+ ">";
    "      <Item:Mime>image/jpeg</Item:Mime>";
    "      <Item:Semantic>GainMap</Item:Semantic>";
    "      <Item:Length>" +:+ str_int gm_len +:+ "</Item:Length>";
    "     </rdf:li>";
    "     <rdf:li rdf:parseType=" +:+ dq +:+ "Resource" +:+ dq +:+ ">";
    "      <Item:Mime>video/mp4</Item:Mime>";
    "      <Item:Semantic>MotionPhoto</Item:Semantic>";
    "      <Item:Length>" +:+ str_int video_len +:+ "</Item:Length>";
    "     </rdf:li>";
    "    </rdf:Seq>";
    "   </GContainer:Directory>";
    "  </rdf:Description>";
    " </rdf:RDF>";
    "</x:xmpmeta>"
  ].

Definition create_combined_xmp (sdr_len gm_len video_len : Z)
    (params : gmap string pyvalue) (tmp_dir : string) : M string :=
  let xmp_path := Path.join tmp_dir "combined.xmp" in
  write_text xmp_path (strip (xmp_content sdr_len gm_len video_len params));;
  mret xmp_path.

Definition cmd (file_path xmp_path : string) : list string :=
  ["exiftool"; "-overwrite_original"; "-n"; "-xmp<=" +:+ xmp_path;
   "-MPFVersion=0100"; "-NumberOfImages=3"; file_path].

Definition apply_metadata (file_path xmp_path : string) : M unit :=
  subprocess_run (cmd file_path xmp_path);;
  mret ().

Definition gen_hdr_motion_photo (sdr_path gm_path video_path output_path : string)
    (params : gmap string pyvalue) (tmp_dir : string) : M unit :=
  gm_size ← getsize gm_path;
  video_size ← getsize video_path;
  TemporaryDirectory tmp_dir (λ tmp_dir,
    let tmp_jpg := Path.join tmp_dir "base.jpg" in
    copy2 sdr_path tmp_jpg;;
    xmp ← create_combined_xmp 0 gm_size video_size params tmp_dir;
    apply_metadata tmp_jpg xmp;;
    final_sdr_size ← getsize tmp_jpg;
    xmp_final ← create_combined_xmp final_sdr_size gm_size video_size params tmp_dir;
    apply_metadata tmp_jpg xmp_final;;
    output_exists ← exists_ output_path;
    when output_exists (remove output_path);;
    move tmp_jpg output_path);;
  open_append output_path;;
  gm_data ← read_binary gm_path;
  append_binary output_path gm_data;;
  video_data ← read_binary video_path;
  append_binary output_path video_data.

End GenUltraHdrMotionPhoto.

(** ** The three pipelines, side by side *)

Module Pipeline.
Import Text Os.

(** One call of one of the three entry points. *)
Inductive invocation :=
| MotionPhoto (photo_path video_path output_dir : string)
| UltraHdr (sdr_path gainmap_path output_path : string)
           (params : gmap string pyvalue)
| HdrMotion (sdr_path gm_path video_path output_path : string)
            (params : gmap string pyvalue).

Definition run (i : invocation) (tmp_dir : string) : M unit :=
  match i with
  | MotionPhoto photo video output_dir =>
      GenMotionPhoto.gen_motion_photo photo video output_dir tmp_dir
  | UltraHdr sdr gainmap output params =>
      GenUltraHDRPhoto.gen_ultra_hdr sdr gainmap output params tmp_dir
  | HdrMotion sdr gm video output params =>
      GenUltraHdrMotionPhoto.gen_hdr_motion_photo sdr gm video output params tmp_dir
  end.

(** The file each path argument names.  The first two entry points take
    [os.path.abspath] of their inputs before they use them. *)
Definition primary_key (w : world) (i : invocation) : string :=
  match i with
  | MotionPhoto photo _ _ => resolve w (Path.abspath (cwd w) photo)
  | UltraHdr sdr _ _ _ => resolve w (Path.abspath (cwd w) sdr)
  | HdrMotion sdr _ _ _ _ => resolve w sdr
  end.

(** The files appended after the primary image, in the order of the
    appends. *)
Definition segment_keys (w : world) (i : invocation) : list string :=
  match i with
  | MotionPhoto _ video _ => [resolve w (Path.abspath (cwd w) video)]
  | UltraHdr _ gainmap _ _ => [resolve w (Path.abspath (cwd w) gainmap)]
  | HdrMotion _ gm video _ _ => [resolve w gm; resolve w video]
  end.

Definition output_key (w : world) (i : invocation) : string :=
  match i with
  | MotionPhoto photo _ output_dir =>
      resolve w (Path.abspath (cwd w)
                   (Path.join output_dir (Path.basename photo)))
  | UltraHdr _ _ output _ => resolve w output
  | HdrMotion _ _ _ output _ => resolve w output
  end.

(** The descriptor text the entry point builds for a primary length and
    the lengths of the appended segments. *)
Definition descriptor_text (i : invocation) (primary_length : Z)
    (segment_lengths : list Z) : string :=
  match i with
  | MotionPhoto _ _ _ =>
      strip (GenMotionPhoto.xmp_content primary_length
               (nth 0 segment_lengths 0%Z))
  | UltraHdr _ _ _ params =>
      strip (GenUltraHDRPhoto.xmp_content primary_length
               (nth 0 segment_lengths 0%Z) params)
  | HdrMotion _ _ _ _ params =>
      strip (GenUltraHdrMotionPhoto.xmp_content primary_length
               (nth 0 segment_lengths 0%Z) (nth 1 segment_lengths 0%Z) params)
  end.

(** The names the entry point uses inside its temporary directory. *)
Definition tmp_image (i : invocation) : string :=
  match i with
  | MotionPhoto _ _ _ => "temp_image.jpg"
  | UltraHdr _ _ _ _ => "hdr_base.jpg"
  | HdrMotion _ _ _ _ _ => "base.jpg"
  end.

Definition tmp_xmp (i : invocation) : string :=
  match i with
  | MotionPhoto _ _ _ => "motion.xmp"
  | UltraHdr _ _ _ _ => "ultrahdr.xmp"
  | HdrMotion _ _ _ _ _ => "combined.xmp"
  end.

(** The ExifTool command line of the entry point. *)
Definition command (i : invocation) (tmp_dir : string) : list string :=
  let file_path := Path.join tmp_dir (tmp_image i) in
  let xmp_path := Path.join tmp_dir (tmp_xmp i) in
  match i with
  | MotionPhoto _ _ _ => GenMotionPhoto.cmd file_path xmp_path
  | UltraHdr _ _ _ _ => GenUltraHDRPhoto.cmd file_path xmp_path
  | HdrMotion _ _ _ _ _ => GenUltraHdrMotionPhoto.cmd file_path xmp_path
  end.

(** The Primary length of the first build: the size of the copy for the
    motion photo, the literal [0] for the other two. *)
Definition first_length (i : invocation) (copy_size : Z) : Z :=
  match i with
  | MotionPhoto _ _ _ => copy_size
  | _ => 0%Z
  end.

(** The directories [os.makedirs] is asked for; only the motion photo
    entry point creates its output directory. *)
Definition created_dirs (w : world) (i : invocation) : list string :=
  match i with
  | MotionPhoto _ _ output_dir => Path.chain (resolve w output_dir)
  | _ => []
  end.

(** The file system once those directories are there. *)
Definition prepared (w : world) (i : invocation) : gmap string node :=
  foldr (λ d, <[d := Dir]>) (nodes w) (created_dirs w i).

(** What [mkdtemp] guarantees for the directory [d] it returns: [d] is new,
    so that nothing of the world and no path of the invocation is at or
    below [d], and the two names the entry point uses in it resolve to
    different paths directly inside [d]. *)
Definition entry (w : world) (d name : string) : string :=
  resolve w (Path.join d name).

Definition inside (w : world) (d name : string) : bool :=
  let k := entry w d name in
  Path.under d k && String.eqb (Path.dirname k) d && negb (String.eqb k d).

Definition paths (w : world) (i : invocation) : list string :=
  output_key w i :: Path.dirname (output_key w i) :: primary_key w i
  :: segment_keys w i ++ created_dirs w i.

Definition fresh (w : world) (i : invocation) (d : string) : bool :=
  forallb (λ k, negb (Path.under d k)) ((map_to_list (nodes w)).*1 ++ paths w i)
  && inside w d (tmp_image i) && inside w d (tmp_xmp i)
  && negb (String.eqb (entry w d (tmp_image i)) (entry w d (tmp_xmp i))).

(** The bytes of the regular file at [k] in a file system, and the size
    [os.path.getsize] reports for what is at [k]. *)
Definition file_in (m : gmap string node) (k : string)
  : option (list Byte.byte) :=
  match m !! k with
  | Some (File data) => Some data
  | _ => None
  end.

Definition size_in (m : gmap string node) (k : string) : Z :=
  match m !! k with
  | Some (File data) => Z.of_nat (length data)
  | Some Dir => dir_size
  | None => 0
  end.

(** The segment lengths the entry point measures. *)
Definition sizes (w : world) (i : invocation) : list Z :=
  size_in (prepared w i) <$> segment_keys w i.

(** A JPEG file: the first two bytes are the SOI marker. *)
Definition is_jpeg (w : world) (k : string) : bool :=
  match file_at w k with
  | Some data => bool_decide (take 2 data = [Byte.xff; Byte.xd8])
  | None => false
  end.

(** Whether [os.makedirs] succeeds: the motion photo entry point asks for
    a directory with a name that is not empty and no regular file on its
    path; the other two ask for none. *)
Definition can_make (w : world) (i : invocation) : bool :=
  match i with
  | MotionPhoto _ _ output_dir =>
      negb (String.eqb output_dir EmptyString)
      && forallb (λ k, negb (is_file w k)) (created_dirs w i)
  | _ => true
  end.

(** The checks an entry point makes before it calls ExifTool: the output
    directory can be made (motion photo), the primary image is a regular
    file, every segment path names something, and both images are JPEG
    files (gain map). *)
Definition ready (w : world) (i : invocation) : bool :=
  can_make w i
  && bool_decide (is_Some (file_in (prepared w i) (primary_key w i)))
  && forallb (λ k, bool_decide (is_Some (prepared w i !! k))) (segment_keys w i)
  && match i with
     | UltraHdr _ _ _ _ =>
         is_jpeg w (primary_key w i) && forallb (is_jpeg w) (segment_keys w i)
     | _ => true
     end.

(** The two calls of ExifTool on a primary image [img]: the first with
    the descriptor of the first build, the second, on the image the first
    run leaves, with the descriptor that declares its measured size. *)
Definition first_run (w : world) (i : invocation) (d : string)
    (img : list Byte.byte) : call :=
  let x := list_byte_of_string
             (descriptor_text i (first_length i (Z.of_nat (length img)))
                (sizes w i)) in
  Call (command i d) img x (exiftool w (command i d) img x).

Definition second_run (w : world) (i : invocation) (d : string)
    (img : list Byte.byte) : call :=
  let img' := image (after (first_run w i d img)) in
  let x := list_byte_of_string
             (descriptor_text i (Z.of_nat (length img')) (sizes w i)) in
  Call (command i d) img' x (exiftool w (command i d) img' x).

(** The exception [subprocess.run(check=True)] raises for a run. *)
Definition failure (x : call) : exn :=
  CalledProcessError (returncode (after x)) (argv x)
                     (stdout (after x)) (stderr (after x)).

(** What a call of an entry point does, in every case.  The working
    directory and the installed tool stay; no regular file other than the
    output changes.  When the checks pass, ExifTool is called on the copy
    of the primary image, at most twice, and the call ends with the
    exception of the first failing run; after two good runs the output is
    put in place and, when the call returns, holds the image the second
    run left followed by the segments.  When the checks fail, ExifTool is
    not called and the file system is as [os.makedirs] left it. *)
Definition outcome (i : invocation) (d : string) (w : world)
    (r : result unit) (w' : world) : Prop :=
  let m := prepared w i in
  let ko := output_key w i in
  cwd w' = cwd w ∧ exiftool w' = exiftool w
  ∧ (∀ k, k ≠ ko → file_at w' k = file_at w k)
  ∧ if ready w i then
      ∃ img, file_in m (primary_key w i) = Some img ∧
        let c1 := first_run w i d img in
        let c2 := second_run w i d img in
        if (returncode (after c1) =? 0)%Z then
          if (returncode (after c2) =? 0)%Z then
            calls w' = calls w ++ [c1; c2] ∧
            (r = Ok () →
             m !! ko ≠ Some Dir ∧ is_Some (file_at w' ko) ∧
             (∀ k, k ≠ ko → nodes w' !! k = m !! k) ∧
             ∃ segs,
               Forall2 (λ k s, file_in m k = Some s) (segment_keys w i) segs ∧
               (ko ∉ segment_keys w i →
                nodes w' = <[ko := File (image (after c2) ++ concat segs)]> m))
          else
            r = Raise (failure c2) ∧ calls w' = calls w ++ [c1; c2] ∧ nodes w' = m
        else
          r = Raise (failure c1) ∧ calls w' = calls w ++ [c1] ∧ nodes w' = m
    else
      (∃ e, r = Raise e) ∧ calls w' = calls w
      ∧ nodes w' = if can_make w i then m else nodes w.

(** The four ways a call can end: it is rejected before ExifTool is
    called, the first run of ExifTool fails, the second run fails, or
    both runs succeed and the output is put together. *)
Inductive ending (i : invocation) (d : string) (w : world)
    (r : result unit) (w' : world) : Prop :=
  | Rejected :
      ready w i = false → (∃ e, r = Raise e) → calls w' = calls w →
      nodes w' = (if can_make w i then prepared w i else nodes w) →
      ending i d w r w'
  | FirstFailed img :
      ready w i = true → file_at w (primary_key w i) = Some img →
      returncode (after (first_run w i d img)) ≠ 0%Z →
      r = Raise (failure (first_run w i d img)) →
      calls w' = calls w ++ [first_run w i d img] →
      nodes w' = prepared w i →
      ending i d w r w'
  | SecondFailed img :
      ready w i = true → file_at w (primary_key w i) = Some img →
      returncode (after (first_run w i d img)) = 0%Z →
      returncode (after (second_run w i d img)) ≠ 0%Z →
      r = Raise (failure (second_run w i d img)) →
      calls w' = calls w ++ [first_run w i d img; second_run w i d img] →
      nodes w' = prepared w i →
      ending i d w r w'
  | Injected img :
      ready w i = true → file_at w (primary_key w i) = Some img →
      returncode (after (first_run w i d img)) = 0%Z →
      returncode (after (second_run w i d img)) = 0%Z →
      calls w' = calls w ++ [first_run w i d img; second_run w i d img] →
      (r = Ok () →
       prepared w i !! output_key w i ≠ Some Dir ∧
       is_Some (file_at w' (output_key w i)) ∧
       (∀ k, k ≠ output_key w i → nodes w' !! k = prepared w i !! k) ∧
       ∃ segs,
         Forall2 (λ k s, file_at w k = Some s) (segment_keys w i) segs ∧
         sizes w i = (λ s, Z.of_nat (length s)) <$> segs ∧
         (output_key w i ∉ segment_keys w i →
          nodes w' = <[output_key w i :=
                         File (image (after (second_run w i d img))
                               ++ concat segs)]>
                       (prepared w i))) →
      ending i d w r w'.

(** The common shape of the three [with] blocks: copy the primary image,
    inject a descriptor, measure, inject the corrected descriptor, put
    the result in place.  [text] is the descriptor for a Primary length,
    [measure] tells whether the sizes of the copy and of the output are
    taken as the motion photo entry point does. *)
Definition two_pass {T} (apply : string → string → M T) (text : Z → string)
    (img_name xmp_name : string) (measure : bool) (src out : string)
    (tmp_dir : string) : M unit :=
  let tmp := Path.join tmp_dir img_name in
  copy2 src tmp;;
  first ← (if measure then getsize tmp else mret 0%Z);
  xmp ← (write_text (Path.join tmp_dir xmp_name) (text first);;
         mret (Path.join tmp_dir xmp_name));
  apply tmp xmp;;
  size ← getsize tmp;
  xmp_final ← (write_text (Path.join tmp_dir xmp_name) (text size);;
               mret (Path.join tmp_dir xmp_name));
  apply tmp xmp_final;;
  output_exists ← exists_ out;
  when output_exists (remove out);;
  if measure then move tmp out;; getsize out;; mret () else move tmp out.

(** The text of a descriptor file, and the directory a reader finds in the
    descriptor a call of ExifTool was given. *)
Definition text_of (data : list Byte.byte) : string := string_of_list_byte data.

Definition declared (c : call) : list Text.item :=
  Text.directory (text_of (descriptor c)).

End Pipeline.

(** ** A stand-in for ExifTool

    Used where an example needs a concrete tool: it keeps the two bytes of
    the SOI marker, stores the descriptor as an APP1 segment right behind
    them, dropping an APP1 segment that was there, and exits with 0. *)

Module Demo.
Import Os.

Definition byte_of (n : nat) : Byte.byte :=
  default Byte.x00 (Byte.of_nat (n mod 256)).

Definition app1 (payload : list Byte.byte) : list Byte.byte :=
  [Byte.xff; Byte.xe1; byte_of ((length payload + 2) / 256);
   byte_of (length payload + 2)] ++ payload.

Definition strip_app1 (body : list Byte.byte) : list Byte.byte :=
  match body with
  | Byte.xff :: Byte.xe1 :: hi :: lo :: rest =>
      drop (Byte.to_nat hi * 256 + Byte.to_nat lo - 2) rest
  | _ => body
  end.

Definition embed (cmd : list string) (img xmp : list Byte.byte) : exit :=
  Exit 0 EmptyString EmptyString
       (take 2 img ++ app1 xmp ++ strip_app1 (drop 2 img)).

(** A tool that fails on every file. *)
Definition broken (cmd : list string) (img xmp : list Byte.byte) : exit :=
  Exit 1 EmptyString "Error: Not a valid JPG" img.

(** A tool that succeeds with a warning on its error stream. *)
Definition warning (cmd : list string) (img xmp : list Byte.byte) : exit :=
  Exit 0 "    1 image files updated" "Warning: [minor] Unknown MPF tag"
       (image (embed cmd img xmp)).

Definition jpg : list Byte.byte :=
  [Byte.xff; Byte.xd8; Byte.x4a; Byte.x46; Byte.x49; Byte.x46; Byte.xff; Byte.xd9].
Definition gainmap : list Byte.byte :=
  [Byte.xff; Byte.xd8; Byte.x47; Byte.x4d; Byte.xff; Byte.xd9].
Definition mov : list Byte.byte :=
  [Byte.x66; Byte.x74; Byte.x79; Byte.x70].

(** A small world: a home directory with the three inputs in [res]. *)
Definition world_with (tool : list string → list Byte.byte → list Byte.byte → exit)
  : world :=
  World (list_to_map
           [("/home", Dir); ("/home/u", Dir); ("/home/u/res", Dir); ("/tmp", Dir);
            ("/home/u/res/IMG.jpg", File jpg);
            ("/home/u/res/GM.jpg", File gainmap);
            ("/home/u/res/IMG.MOV", File mov)])
        "/home/u" tool [].

Definition tmp : string := "/tmp/tmpk3x9q2ab".

(** The same world in the middle of a call: the temporary directory holds
    a copy of the image and a descriptor. *)
Definition descriptor : list Byte.byte := list_byte_of_string "<x:xmpmeta/>".

Definition staged (tool : list string → list Byte.byte → list Byte.byte → exit)
  : world :=
  with_nodes (λ m, <["/tmp/tmpk3x9q2ab/motion.xmp" := File descriptor]>
                     (<["/tmp/tmpk3x9q2ab/temp_image.jpg" := File jpg]>
                        (<[tmp := Dir]> m)))
             (world_with tool).

(** One call of each entry point. *)
Definition motion : Pipeline.invocation :=
  Pipeline.MotionPhoto "res/IMG.jpg" "res/IMG.MOV" "output/a".
Definition ultrahdr : Pipeline.invocation :=
  Pipeline.UltraHdr "res/IMG.jpg" "res/GM.jpg" "out.jpg" ∅.
Definition combined : Pipeline.invocation :=
  Pipeline.HdrMotion "res/IMG.jpg" "res/GM.jpg" "res/IMG.MOV" "out.jpg" ∅.

(** The float [0.5]. *)
Definition f0_5 : Text.pyvalue :=
  Text.PyFloat (Decimal.Decimal (Decimal.Pos (Decimal.D0 Decimal.Nil))
                                (Decimal.D5 Decimal.Nil)).

End Demo.

(** ** Errors and unfinished outputs *)

Module Detail.
Import Text Os Pipeline.

(** The segment paths and the output path as the entry point hands them
    to the operating system: made absolute by the first two, as they were
    passed by the third. *)
Definition segment_paths (w : world) (i : invocation) : list string :=
  match i with
  | MotionPhoto _ video _ => [Path.abspath (cwd w) video]
  | UltraHdr _ gainmap _ _ => [Path.abspath (cwd w) gainmap]
  | HdrMotion _ gm video _ _ => [gm; video]
  end.

Definition output_path (w : world) (i : invocation) : string :=
  match i with
  | MotionPhoto photo _ output_dir =>
      Path.abspath (cwd w) (Path.join output_dir (Path.basename photo))
  | UltraHdr _ _ output _ => output
  | HdrMotion _ _ _ output _ => output
  end.

(** The exception of the first check that fails. *)
Fixpoint first_error (checks : list (option exn)) : option exn :=
  match checks with
  | [] => None
  | Some e :: _ => Some e
  | None :: rest => first_error rest
  end.

(** [os.path.exists] and [os.path.getsize] want something at [p];
    [open(p, 'rb')] and [shutil.copy2] want a regular file. *)
Definition absent (m : gmap string node) (w : world) (p : string)
  : option exn :=
  match m !! resolve w p with
  | Some _ => None
  | None => Some (FileNotFoundError p)
  end.

Definition unreadable (m : gmap string node) (w : world) (p : string)
  : option exn :=
  match m !! resolve w p with
  | Some (File _) => None
  | Some Dir => Some (IsADirectoryError p)
  | None => Some (FileNotFoundError p)
  end.

(** The check of [gen_ultra_hdr] on one image. *)
Definition not_jpeg (w : world) (p : string) : option exn :=
  match nodes w !! resolve w p with
  | Some (File data) =>
      if bool_decide (take 2 data = [Byte.xff; Byte.xd8]) then None
      else Some (ValueError p)
  | Some Dir => Some (IsADirectoryError p)
  | None => Some (FileNotFoundError p)
  end.

(** [os.makedirs(name, exist_ok=True)] *)
Definition makedirs_error (w : world) (name : string) : option exn :=
  if String.eqb name EmptyString then Some (FileNotFoundError name) else
  match List.find (is_file w) (Path.chain (resolve w name)) with
  | Some d => Some (if bool_decide (d = resolve w name)
                    then FileExistsError name else NotADirectoryError name)
  | None => None
  end.

(** The checks of each entry point in the order in which it makes them. *)
Definition rejection (w : world) (i : invocation) : option exn :=
  match i with
  | MotionPhoto photo video output_dir =>
      first_error [makedirs_error w output_dir;
                   absent (prepared w i) w (Path.abspath (cwd w) video);
                   unreadable (prepared w i) w (Path.abspath (cwd w) photo)]
  | UltraHdr sdr gainmap _ _ =>
      first_error [not_jpeg w (Path.abspath (cwd w) sdr);
                   not_jpeg w (Path.abspath (cwd w) gainmap)]
  | HdrMotion sdr gm video _ _ =>
      first_error [absent (nodes w) w gm; absent (nodes w) w video;
                   unreadable (nodes w) w sdr]
  end.

(** What keeps the processed image from being put at the output path: a
    directory there, which [os.remove] refuses, or no directory to put
    it in. *)
Definition placing (w : world) (i : invocation) : option exn :=
  let m := prepared w i in
  let ko := output_key w i in
  match m !! ko with
  | Some Dir => Some (IsADirectoryError (output_path w i))
  | _ =>
      match m !! Path.dirname ko with
      | Some Dir => None
      | _ => Some (FileNotFoundError (output_path w i))
      end
  end.

(** The segments are appended one after the other: those before the
    first that cannot be read reach the output. *)
Fixpoint leading_files (m : gmap string node) (ks : list string)
  : list (list Byte.byte) :=
  match ks with
  | [] => []
  | k :: rest =>
      match m !! k with
      | Some (File s) => s :: leading_files m rest
      | _ => []
      end
  end.

Definition append_error (w : world) (i : invocation) : option exn :=
  first_error (unreadable (prepared w i) w <$> segment_paths w i).

(** The function of each file that writes the descriptor, for a Primary
    length and the lengths of the segments. *)
Definition create_descriptor (i : invocation) (primary_length : Z)
    (segment_lengths : list Z) (tmp_dir : string) : M string :=
  match i with
  | MotionPhoto _ _ _ =>
      GenMotionPhoto.create_xmp_file primary_length
        (nth 0 segment_lengths 0%Z) tmp_dir
  | UltraHdr _ _ _ params =>
      GenUltraHDRPhoto.create_ultrahdr_xmp primary_length
        (nth 0 segment_lengths 0%Z) params tmp_dir
  | HdrMotion _ _ _ _ params =>
      GenUltraHdrMotionPhoto.create_combined_xmp primary_length
        (nth 0 segment_lengths 0%Z) (nth 1 segment_lengths 0%Z) params tmp_dir
  end.

(** The number a reader takes a decimal numeral for. *)
Definition int_of_text (s : string) : option Z :=
  Z.of_int <$> NilZero.int_of_string s.

(** How a call ends once both runs of ExifTool have succeeded and left
    the image [img]. *)
Definition finish (i : invocation) (w : world) (img : list Byte.byte)
    (r : result unit) (w' : world) : Prop :=
  let m := prepared w i in
  let ko := output_key w i in
  match placing w i with
  | Some e =>
      r = Raise e
      ∧ nodes w' = match m !! ko with
                   | Some (File _) => delete ko m
                   | _ => m
                   end
  | None =>
      ko ∉ segment_keys w i →
      r = match append_error w i with
          | Some e => Raise e
          | None => Ok ()
          end
      ∧ nodes w'
        = <[ko := File (img ++ concat (leading_files m (segment_keys w i)))]> m
  end.

(** Every call, in detail: what is at each path other than the output
    path, the exception of a rejected call, and the end of a call whose
    two runs of ExifTool succeeded. *)
Definition detail (i : invocation) (d : string) (w : world)
    (r : result unit) (w' : world) : Prop :=
  let m := prepared w i in
  let ko := output_key w i in
  (∀ k, k ≠ ko → nodes w' !! k = (if can_make w i then m else nodes w) !! k)
  ∧ if ready w i then
      ∃ img, file_in m (primary_key w i) = Some img ∧
        if (returncode (after (first_run w i d img)) =? 0)%Z then
          if (returncode (after (second_run w i d img)) =? 0)%Z then
            finish i w (image (after (second_run w i d img))) r w'
          else True
        else True
    else ∃ e, rejection w i = Some e ∧ r = Raise e.

End Detail.

(** ** The three files run as scripts *)

Module Scripts.
Import Text Os Pipeline.

(** [try: m except Exception as e: logging.error(...)]: every exception
    of the model is an [Exception], and the handler only logs. *)
Definition except_exception (m : M unit) : M unit := λ w,
  match m w with
  | (Raise _, w') => (Ok (), w')
  | r => r
  end.

(** The dictionaries of the two scripts that take one. *)
Definition MY_PARAMS : gmap string pyvalue :=
  {[ "gainMapMin" := f0_0; "gainMapMax" := f2_0; "gamma" := f1_0;
     "hdrCapacityMin" := f0_0; "hdrCapacityMax" := f2_0 ]}.

Definition PARAMS : gmap string pyvalue :=
  {[ "gainMapMax" := f2_1; "gamma" := f1_0; "hdrCapacityMax" := f2_1 ]}.

(** The call each [if __name__ == "__main__":] block makes. *)
Inductive script :=
| GenMotionPhoto_py
| GenUltraHDRPhoto_py
| GenUltraHdrMotionPhoto_py.

Definition call_of (s : script) : invocation :=
  match s with
  | GenMotionPhoto_py =>
      let SOURCE_JPG := "res/IMG_0001.jpg" in
      let SOURCE_MOV := "res/IMG_0001.MOV" in
      let OUTPUT_FOLDER := "output" in
      MotionPhoto SOURCE_JPG SOURCE_MOV OUTPUT_FOLDER
  | GenUltraHDRPhoto_py =>
      UltraHdr "test/sdr.jpg" "test/ngm.jpg" "output1/ULTRA_HDR.jpg" MY_PARAMS
  | GenUltraHdrMotionPhoto_py =>
      HdrMotion "test/sdr.jpg" "test/gainmap.jpg" "test/video.mp4"
                "output/FULL_HDR_MOTION.jpg" PARAMS
  end.

Definition main (s : script) (tmp_dir : string) : M unit :=
  except_exception (run (call_of s) tmp_dir).

End Scripts.

(** ** A project directory for the scripts

    The inputs the three scripts name are there, below the working
    directory; the directories [output] and [output1] are not. *)

Module Project.
Import Os.

Definition world_with (tool : list string → list Byte.byte → list Byte.byte → exit)
  : world :=
  World (list_to_map
           [("/home", Dir); ("/home/u", Dir); ("/home/u/res", Dir);
            ("/home/u/test", Dir); ("/tmp", Dir);
            ("/home/u/res/IMG_0001.jpg", File Demo.jpg);
            ("/home/u/res/IMG_0001.MOV", File Demo.mov);
            ("/home/u/test/sdr.jpg", File Demo.jpg);
            ("/home/u/test/ngm.jpg", File Demo.gainmap);
            ("/home/u/test/gainmap.jpg", File Demo.gainmap);
            ("/home/u/test/video.mp4", File Demo.mov)])
        "/home/u" tool [].

End Project.

(** * Properties *)

(** ** Texts and descriptors *)

Module TextFacts.
Import Text.

Lemma append_assoc a b c : (a +:+ b) +:+ c = a +:+ (b +:+ c).
Proof.
  induction a as [|x a IH]; [done|].
  change (String x ((a +:+ b) +:+ c) = String x (a +:+ (b +:+ c))).
  by rewrite IH.
Qed.

Lemma append_nil_l s : EmptyString +:+ s = s.
Proof. done. Qed.

Lemma append_nil_r s : s +:+ EmptyString = s.
Proof.
  induction s as [|c s IH]; [done|].
  change (String c (s +:+ EmptyString) = String c s). by rewrite IH.
Qed.

(** Numerals hold no markup. *)
Lemma no_lt_app a b : no_lt (a +:+ b) = no_lt a && no_lt b.
Proof.
  induction a as [|c a IH]; [done|].
  change (negb (Ascii.eqb c "<") && no_lt (a +:+ b)
          = negb (Ascii.eqb c "<") && no_lt a && no_lt b).
  by rewrite IH, andb_assoc.
Qed.

Lemma no_lt_uint d : no_lt (NilEmpty.string_of_uint d) = true.
Proof. induction d; simpl; auto. Qed.

Lemma no_lt_uint0 d : no_lt (NilZero.string_of_uint d) = true.
Proof. destruct d; simpl; auto using no_lt_uint. Qed.

Lemma no_lt_int i : no_lt (NilZero.string_of_int i) = true.
Proof.
  destruct i as [d|d]; simpl; [apply no_lt_uint0|].
  destruct d; simpl; auto using no_lt_uint.
Qed.

Lemma no_lt_str_int n : no_lt (str_int n) = true.
Proof. apply no_lt_int. Qed.

Lemma no_lt_exponent e : no_lt (str_exponent e) = true.
Proof. destruct e; simpl; apply no_lt_uint0. Qed.

Lemma no_lt_str v : no_lt (str v) = true.
Proof.
  destruct v as [z|[i f|i f e]]; simpl.
  - apply no_lt_str_int.
  - rewrite no_lt_app, no_lt_int. simpl. apply no_lt_uint0.
  - destruct f;
      rewrite !no_lt_app, ?no_lt_int, ?no_lt_exponent; simpl;
      rewrite ?no_lt_app, ?no_lt_exponent, ?andb_true_r; auto using no_lt_uint.
Qed.

(** Reading an element text that holds no markup. *)
Lemma until_lt_app v r :
  no_lt v = true → until_lt (v +:+ r) = v +:+ until_lt r.
Proof.
  induction v as [|c v IH]; [done|].
  change (negb (Ascii.eqb c "<") && no_lt v = true →
          (if Ascii.eqb c "<" then EmptyString else String c (until_lt (v +:+ r)))
          = String c (v +:+ until_lt r)).
  intros [Hc Hv]%andb_prop. destruct (Ascii.eqb c "<"); [done|]. by rewrite IH.
Qed.

Lemma element_texts_skip tag v r :
  no_lt v = true → element_texts tag (v +:+ r) = element_texts tag r.
Proof.
  induction v as [|c v IH]; [done|].
  intros [Hc Hv]%andb_prop.
  change (String c v +:+ r) with (String c (v +:+ r)).
  cbn [element_texts]. unfold open_tag.
  change ("<" +:+ tag +:+ ">") with (String "<" (tag +:+ ">")).
  cbn [startswith]. rewrite Ascii.eqb_sym.
  destruct (Ascii.eqb c "<"); [done|]. by apply IH.
Qed.

(** [rstrip] across a concatenation. *)
Lemma rstrip_cons x s :
  rstrip (String x s)
  = match rstrip s with
    | EmptyString => if is_space x then EmptyString else String x EmptyString
    | String c r => String x (String c r)
    end.
Proof. reflexivity. Qed.

Lemma rstrip_app a b :
  rstrip (a +:+ b) = match rstrip b with
                     | EmptyString => rstrip a
                     | String c r => a +:+ String c r
                     end.
Proof.
  induction a as [|x a IH].
  - change (EmptyString +:+ b) with b. destruct (rstrip b); reflexivity.
  - change (String x a +:+ b) with (String x (a +:+ b)).
    rewrite rstrip_cons, IH. destruct (rstrip b) as [|c r].
    + by rewrite rstrip_cons.
    + change (String x a +:+ String c r) with (String x (a +:+ String c r)).
      destruct (a +:+ String c r) eqn:E; [|done].
      destruct a; discriminate.
Qed.

Lemma text_of_bytes s : string_of_list_byte (list_byte_of_string s) = s.
Proof. apply string_of_list_byte_of_string. Qed.

End TextFacts.

Arguments Text.str_int : simpl never.
Arguments Text.str : simpl never.
Arguments Text.get : simpl never.

(** Evaluation of the reader on a descriptor: the literal text is scanned
    by computation, the numerals are skipped by the lemmas above. *)
Ltac scan :=
  repeat (simpl; rewrite ?TextFacts.append_nil_l;
          first
            [ rewrite !(TextFacts.element_texts_skip _ _ _ (TextFacts.no_lt_str_int _))
            | rewrite !(TextFacts.element_texts_skip _ _ _ (TextFacts.no_lt_str _))
            | rewrite !(TextFacts.until_lt_app _ _ (TextFacts.no_lt_str_int _))
            | rewrite !(TextFacts.until_lt_app _ _ (TextFacts.no_lt_str _)) ]);
  simpl; rewrite ?TextFacts.append_nil_r.

Ltac strip_id :=
  unfold Text.strip; rewrite !TextFacts.rstrip_app; simpl;
  rewrite ?TextFacts.append_assoc; reflexivity.

Module Descriptors.
Import Text.

(** What a reader finds in each of the three templates.  [strip()] leaves
    them as they are: they begin with [<] and end with [>]. *)
Lemma motion_reading n m :
  let xmp := GenMotionPhoto.xmp_content n m in
  strip xmp = xmp
  ∧ directory xmp = [Item "image/jpeg" "Primary" (str_int n);
                     Item "video/mp4" "MotionPhoto" (str_int m)].
Proof.
  unfold directory, GenMotionPhoto.xmp_content. cbn [String.concat].
  split; [strip_id|]. rewrite !TextFacts.append_assoc. scan. reflexivity.
Qed.

Lemma ultrahdr_reading n g p :
  let xmp := GenUltraHDRPhoto.xmp_content n g p in
  strip xmp = xmp
  ∧ directory xmp = [Item "image/jpeg" "Primary" "0";
                     Item "image/jpeg" "GainMap" (str_int g)]
  ∧ element_texts "hdrgm:GainMapMin" xmp = [str (get p "gainMapMin" f0_0)]
  ∧ element_texts "hdrgm:GainMapMax" xmp = [str (get p "gainMapMax" f1_0)]
  ∧ element_texts "hdrgm:Gamma" xmp = [str (get p "gamma" f1_0)]
  ∧ element_texts "hdrgm:HDRCapacityMin" xmp = [str (get p "hdrCapacityMin" f0_0)]
  ∧ element_texts "hdrgm:HDRCapacityMax" xmp = [str (get p "hdrCapacityMax" f2_0)].
Proof.
  unfold directory, GenUltraHDRPhoto.xmp_content. cbn [String.concat].
  split; [strip_id|]. rewrite !TextFacts.append_assoc.
  repeat split; scan; reflexivity.
Qed.

Lemma combined_reading n g v p :
  let xmp := GenUltraHdrMotionPhoto.xmp_content n g v p in
  strip xmp = xmp
  ∧ directory xmp = [Item "image/jpeg" "Primary" (str_int n);
                     Item "image/jpeg" "GainMap" (str_int g);
                     Item "video/mp4" "MotionPhoto" (str_int v)]
  ∧ element_texts "hdrgm:GainMapMin" xmp = [str (get p "gainMapMin" f0_0)]
  ∧ element_texts "hdrgm:GainMapMax" xmp = [str (get p "gainMapMax" f2_1)]
  ∧ element_texts "hdrgm:Gamma" xmp = [str (get p "gamma" f1_0)]
  ∧ element_texts "hdrgm:HDRCapacityMax" xmp = [str (get p "hdrCapacityMax" f2_1)]
  ∧ element_texts "hdrgm:HDRCapacityMin" xmp = [].
Proof.
  unfold directory, GenUltraHdrMotionPhoto.xmp_content. cbn [String.concat].
  split; [strip_id|]. rewrite !TextFacts.append_assoc.
  repeat split; scan; reflexivity.
Qed.

End Descriptors.

(** ** Running the pipelines *)

Module Exec.
Import Text Os Pipeline.

(** Each entry point is its checks, the common block [two_pass] in a
    temporary directory, and its appends. *)
Lemma motion_block photo video output_dir d :
  GenMotionPhoto.gen_motion_photo photo video output_dir d =
  (abs_photo ← abspath photo;
   abs_video ← abspath video;
   output_path ← abspath (Path.join output_dir (Path.basename photo));
   makedirs output_dir;;
   video_exists ← exists_ abs_video;
   if negb video_exists then raise (FileNotFoundError abs_video) else
   video_size ← getsize abs_video;
   TemporaryDirectory d
     (two_pass GenMotionPhoto.apply_metadata
        (λ n, strip (GenMotionPhoto.xmp_content n video_size))
        "temp_image.jpg" "motion.xmp" true abs_photo output_path);;
   video_data ← read_binary abs_video;
   append_binary output_path video_data).
Proof. reflexivity. Qed.

Lemma ultra_block sdr gainmap output params d :
  GenUltraHDRPhoto.gen_ultra_hdr sdr gainmap output params d =
  (abs_sdr ← abspath sdr;
   abs_gm ← abspath gainmap;
   for_each [abs_sdr; abs_gm] GenUltraHDRPhoto.check_jpeg;;
   gm_size ← getsize abs_gm;
   TemporaryDirectory d
     (two_pass GenUltraHDRPhoto.apply_ultrahdr_metadata
        (λ n, strip (GenUltraHDRPhoto.xmp_content n gm_size params))
        "hdr_base.jpg" "ultrahdr.xmp" false abs_sdr output);;
   gm_data ← read_binary abs_gm;
   append_binary output gm_data).
Proof. reflexivity. Qed.

Lemma combined_block sdr gm video output params d :
  GenUltraHdrMotionPhoto.gen_hdr_motion_photo sdr gm video output params d =
  (gm_size ← getsize gm;
   video_size ← getsize video;
   TemporaryDirectory d
     (two_pass GenUltraHdrMotionPhoto.apply_metadata
        (λ n, strip (GenUltraHdrMotionPhoto.xmp_content n gm_size video_size params))
        "base.jpg" "combined.xmp" false sdr output);;
   open_append output;;
   gm_data ← read_binary gm;
   append_binary output gm_data;;
   video_data ← read_binary video;
   append_binary output video_data).
Proof. reflexivity. Qed.

(** *** Symbolic evaluation

    A run is evaluated step by step on a world that is not known.  Paths,
    texts and sizes stay folded meanwhile. *)
Arguments Path.abspath : simpl never.
Arguments Path.resolve : simpl never.
Arguments Path.join : simpl never.
Arguments Path.dirname : simpl never.
Arguments Path.basename : simpl never.
Arguments Path.under : simpl never.
Arguments Path.chain : simpl never.
Arguments Path.rstrip_sep : simpl never.
Arguments strip : simpl never.
Arguments list_byte_of_string : simpl never.
Arguments Z.of_nat : simpl never.
Arguments Z.eqb : simpl never.
Arguments xmp_argument : simpl never.
Arguments List.last : simpl never.

Lemma run_bind {A B} (m : M A) (f : A → M B) w :
  (m ≫= f) w = match m w with
               | (Ok a, w') => f a w'
               | (Raise e, w') => (Raise e, w')
               end.
Proof. reflexivity. Qed.

(** [step H] evaluates the run in [H : m w = (r, w')] at its head: the
    innermost scrutinee is a bind, a lookup, a decision or a function of
    the model.  A lookup in the initial file system splits the case; a
    lookup in an updated one is settled by the updates. *)
Ltac scrutinee X :=
  lazymatch X with
  | match ?Y with _ => _ end => scrutinee Y
  | _ => X
  end.

Ltac key_neq := congruence.

Ltac lookup_norm :=
  repeat first
    [ rewrite lookup_insert_eq
    | rewrite lookup_delete_eq
    | rewrite lookup_insert_ne by key_neq
    | rewrite lookup_delete_ne by key_neq ].

Ltac head_const t :=
  lazymatch t with
  | ?f _ => head_const f
  | _ => t
  end.

Ltac unfold_in H Y :=
  let h := head_const Y in
  let Y' := eval cbv beta delta
              [h with_nodes resolve file_at raise mret M_ret when rmtree] in Y in
  progress (change Y with Y' in H); simpl in H.

Ltac shrink H :=
  repeat match type of H with
  | context [exiftool ?w ?c ?a ?b] =>
      let r := fresh "r" in set (r := exiftool w c a b) in *
  | context [list_byte_of_string ?t] =>
      let x := fresh "x" in set (x := list_byte_of_string t) in *
  end.

Ltac step H Hnode Happly :=
  lazymatch type of H with
  | ?X = _ =>
    let Y := scrutinee X in
    lazymatch Y with
    | pair _ _ => fail "leaf"
    | mbind _ _ _ => rewrite run_bind in H
    | ?m !! _ =>
        first [ match goal with E : Y = _ |- _ => rewrite E in H; simpl in H end
              | first [ is_var m | lazymatch m with nodes _ => idtac end ];
                let E := fresh "E" in
                destruct Y as [[?|]|] eqn:E;
                [ pose proof (Hnode _ _ E) | pose proof (Hnode _ _ E) | ];
                simpl in H
              | let v := fresh "v" in let Hv := fresh "Hv" in
                evar (v : option node);
                assert (Hv : Y = v) by (subst v; progress lookup_norm; reflexivity);
                subst v; rewrite Hv in H; clear Hv; simpl in H
              | lazymatch Y with
                | <[_:=_]> _ !! _ => rewrite lookup_insert in H
                | delete _ _ !! _ => rewrite lookup_delete in H
                end ]
    | decide _ => destruct Y as [?|?]; simpl in H
    | bool_decide _ =>
        first [ rewrite bool_decide_eq_false_2 in H by key_neq; simpl in H
              | rewrite bool_decide_eq_true_2 in H by congruence; simpl in H
              | let E := fresh "E" in destruct Y eqn:E; simpl in H ]
    | Z.eqb _ _ => let E := fresh "E" in destruct Y eqn:E; simpl in H; shrink H
    | negb _ => simpl in H
    | (if ?b then _ else _) _ =>
        let E := fresh "E" in destruct b eqn:E; simpl in H
    | TemporaryDirectory _ _ _ => fail "block"
    | makedirs _ _ => fail "makedirs"
    | _ => first [ rewrite Happly in H | unfold_in H Y ]
    end
  end.

(** *** The block in the temporary directory

    [two_pass_cases] lists what the block does on a world [w0] in which
    nothing is at or below the temporary directory [d]: the two runs of
    ExifTool, the exception of the first that fails, and the output in
    place when both succeed. *)
Section TwoPass.
Context {T : Type} (apply : string → string → M T) (t0 : T)
  (cmd : string → string → list string) (text : Z → string)
  (img_name xmp_name : string) (measure : bool) (src out d : string) (w0 : world).

Hypothesis Happly : ∀ f x w,
  apply f x w = match subprocess_run (cmd f x) w with
                | (Ok _, w') => (Ok t0, w')
                | (Raise e, w') => (Raise e, w')
                end.
Hypothesis Hlast : ∀ f x, List.last (cmd f x) EmptyString = f.
Hypothesis Hxmp : ∀ f x, xmp_argument (cmd f x) = x.
Hypothesis Hnode : ∀ k n, nodes w0 !! k = Some n → Path.under d k = false.
Hypothesis Hks : Path.under d (resolve w0 src) = false.
Hypothesis Hko : Path.under d (resolve w0 out) = false.
Hypothesis Hkod : Path.under d (Path.dirname (resolve w0 out)) = false.
Hypothesis Hkt :
  Path.under d (resolve w0 (Path.join d img_name)) = true
  ∧ Path.dirname (resolve w0 (Path.join d img_name)) = d
  ∧ resolve w0 (Path.join d img_name) ≠ d.
Hypothesis Hkx :
  Path.under d (resolve w0 (Path.join d xmp_name)) = true
  ∧ Path.dirname (resolve w0 (Path.join d xmp_name)) = d
  ∧ resolve w0 (Path.join d xmp_name) ≠ d.
Hypothesis Hktx :
  resolve w0 (Path.join d img_name) ≠ resolve w0 (Path.join d xmp_name).

Lemma lookup_rmtree (m : gmap string node) k :
  filter (λ kv : string * node, Path.under d kv.1 = false) m !! k
  = if Path.under d k then None else m !! k.
Proof.
  destruct (Path.under d k) eqn:E.
  - apply map_lookup_filter_None. right. intros x _. simpl. congruence.
  - destruct (m !! k) as [x|] eqn:Ek.
    + by apply map_lookup_filter_Some.
    + apply map_lookup_filter_None. by left.
Qed.

(** Equality of the file system once the temporary directory is gone. *)
Ltac map_solve :=
  let k := fresh "k" in let Hk := fresh "Hk" in let En := fresh "En" in
  apply map_eq; intros k; rewrite lookup_rmtree;
  destruct (Path.under d k) eqn:Hk;
  [ symmetry;
    repeat first [ rewrite lookup_insert_ne by congruence
                 | rewrite lookup_delete_ne by congruence ];
    destruct (nodes w0 !! k) eqn:En; [apply Hnode in En; congruence | done]
  | repeat first
      [ reflexivity
      | rewrite lookup_insert_eq
      | rewrite lookup_delete_eq
      | rewrite lookup_insert_ne by congruence
      | rewrite lookup_delete_ne by congruence
      | match goal with
        | |- context [<[?a:=_]> _ !! k] => destruct (decide (a = k)) as [<-|]
        | |- context [delete ?a _ !! k] => destruct (decide (a = k)) as [<-|]
        end ];
    congruence ].

Lemma two_pass_cases r w1 :
  TemporaryDirectory d
    (two_pass apply text img_name xmp_name measure src out) w0 = (r, w1) →
  cwd w1 = cwd w0 ∧ exiftool w1 = exiftool w0 ∧
  match nodes w0 !! resolve w0 src with
  | Some (File img) =>
      let c := cmd (Path.join d img_name) (Path.join d xmp_name) in
      let x1 := list_byte_of_string
                  (text (if measure then Z.of_nat (length img) else 0%Z)) in
      let r1 := exiftool w0 c img x1 in
      let x2 := list_byte_of_string (text (Z.of_nat (length (image r1)))) in
      let r2 := exiftool w0 c (image r1) x2 in
      if (returncode r1 =? 0)%Z then
        if (returncode r2 =? 0)%Z then
          calls w1 = calls w0 ++ [Call c img x1 r1; Call c (image r1) x2 r2] ∧
          ((r = Ok () ∧ nodes w0 !! resolve w0 out ≠ Some Dir ∧
            nodes w1 = <[resolve w0 out := File (image r2)]> (nodes w0)) ∨
           ((∃ e, r = Raise e) ∧
            (nodes w1 = nodes w0 ∨ nodes w1 = delete (resolve w0 out) (nodes w0))))
        else
          r = Raise (CalledProcessError (returncode r2) c (stdout r2) (stderr r2)) ∧
          calls w1 = calls w0 ++ [Call c img x1 r1; Call c (image r1) x2 r2] ∧
          nodes w1 = nodes w0
      else
        r = Raise (CalledProcessError (returncode r1) c (stdout r1) (stderr r1)) ∧
        calls w1 = calls w0 ++ [Call c img x1 r1] ∧ nodes w1 = nodes w0
  | _ => (∃ e, r = Raise e) ∧ calls w1 = calls w0 ∧ nodes w1 = nodes w0
  end.
Proof.
  intros H.
  pose proof Hkt as (Ht1 & Ht2 & Ht3). pose proof Hkx as (Hx1 & Hx2 & Hx3).
  assert (Hd : Path.under d d = true)
    by (unfold Path.under; by rewrite String.eqb_refl).
  assert (Hnt : nodes w0 !! resolve w0 (Path.join d img_name) = None).
  { destruct (nodes w0 !! resolve w0 (Path.join d img_name)) eqn:E; [|done].
    apply Hnode in E. congruence. }
  assert (Hnx : nodes w0 !! resolve w0 (Path.join d xmp_name) = None).
  { destruct (nodes w0 !! resolve w0 (Path.join d xmp_name)) eqn:E; [|done].
    apply Hnode in E. congruence. }
  assert (Hnd : nodes w0 !! d = None).
  { destruct (nodes w0 !! d) eqn:E; [|done]. apply Hnode in E. congruence. }
  unfold resolve in *.
  unfold TemporaryDirectory, rmtree, with_nodes in H. simpl in H.
  repeat (step H Hnode Happly; rewrite ?Hlast, ?Hxmp, ?Ht2, ?Hx2 in H).
  all: injection H as <- <-; simpl;
    repeat match goal with x := _ |- _ => subst x end;
    repeat match goal with
    | E : nodes w0 !! _ = _ |- _ => rewrite E
    | E : Z.eqb _ _ = _ |- _ => rewrite E
    end; simpl; rewrite <- ?app_assoc; simpl.
  all: repeat split; try reflexivity; eauto.
  all: try solve [map_solve].
  all: try solve [left; split; [reflexivity | split; [congruence | map_solve]]].
  all: try solve [right; split; [eauto | left; map_solve]].
  all: try solve [right; split; [eauto | right; map_solve]].
Qed.
(** The same, with the exception of each way in which the copy cannot be
    made or the output cannot be put in place. *)
Lemma two_pass_exact r w1 :
  TemporaryDirectory d
    (two_pass apply text img_name xmp_name measure src out) w0 = (r, w1) →
  cwd w1 = cwd w0 ∧ exiftool w1 = exiftool w0 ∧
  match nodes w0 !! resolve w0 src with
  | Some (File img) =>
      let c := cmd (Path.join d img_name) (Path.join d xmp_name) in
      let x1 := list_byte_of_string
                  (text (if measure then Z.of_nat (length img) else 0%Z)) in
      let r1 := exiftool w0 c img x1 in
      let x2 := list_byte_of_string (text (Z.of_nat (length (image r1)))) in
      let r2 := exiftool w0 c (image r1) x2 in
      if (returncode r1 =? 0)%Z then
        if (returncode r2 =? 0)%Z then
          calls w1 = calls w0 ++ [Call c img x1 r1; Call c (image r1) x2 r2] ∧
          match nodes w0 !! resolve w0 out with
          | Some Dir => r = Raise (IsADirectoryError out) ∧ nodes w1 = nodes w0
          | Some (File _) =>
              match nodes w0 !! Path.dirname (resolve w0 out) with
              | Some Dir =>
                  r = Ok () ∧
                  nodes w1 = <[resolve w0 out := File (image r2)]> (nodes w0)
              | _ => r = Raise (FileNotFoundError out) ∧
                     nodes w1 = delete (resolve w0 out) (nodes w0)
              end
          | None =>
              match nodes w0 !! Path.dirname (resolve w0 out) with
              | Some Dir =>
                  r = Ok () ∧
                  nodes w1 = <[resolve w0 out := File (image r2)]> (nodes w0)
              | _ => r = Raise (FileNotFoundError out) ∧ nodes w1 = nodes w0
              end
          end
        else
          r = Raise (CalledProcessError (returncode r2) c (stdout r2) (stderr r2)) ∧
          calls w1 = calls w0 ++ [Call c img x1 r1; Call c (image r1) x2 r2] ∧
          nodes w1 = nodes w0
      else
        r = Raise (CalledProcessError (returncode r1) c (stdout r1) (stderr r1)) ∧
        calls w1 = calls w0 ++ [Call c img x1 r1] ∧ nodes w1 = nodes w0
  | Some Dir =>
      r = Raise (IsADirectoryError src) ∧ calls w1 = calls w0
      ∧ nodes w1 = nodes w0
  | None =>
      r = Raise (FileNotFoundError src) ∧ calls w1 = calls w0
      ∧ nodes w1 = nodes w0
  end.
Proof.
  intros H.
  pose proof Hkt as (Ht1 & Ht2 & Ht3). pose proof Hkx as (Hx1 & Hx2 & Hx3).
  assert (Hd : Path.under d d = true)
    by (unfold Path.under; by rewrite String.eqb_refl).
  assert (Hnt : nodes w0 !! resolve w0 (Path.join d img_name) = None).
  { destruct (nodes w0 !! resolve w0 (Path.join d img_name)) eqn:E; [|done].
    apply Hnode in E. congruence. }
  assert (Hnx : nodes w0 !! resolve w0 (Path.join d xmp_name) = None).
  { destruct (nodes w0 !! resolve w0 (Path.join d xmp_name)) eqn:E; [|done].
    apply Hnode in E. congruence. }
  assert (Hnd : nodes w0 !! d = None).
  { destruct (nodes w0 !! d) eqn:E; [|done]. apply Hnode in E. congruence. }
  unfold resolve in *.
  unfold TemporaryDirectory, rmtree, with_nodes in H. simpl in H.
  repeat (step H Hnode Happly; rewrite ?Hlast, ?Hxmp, ?Ht2, ?Hx2 in H).
  all: injection H as <- <-; simpl;
    repeat match goal with x := _ |- _ => subst x end;
    try match goal with e : ?a = Path.dirname ?a |- _ => rewrite <- e end;
    repeat match goal with
    | E : nodes w0 !! _ = _ |- _ => rewrite E
    | E : Z.eqb _ _ = _ |- _ => rewrite E
    end; simpl; rewrite <- ?app_assoc; simpl.
  all: repeat split; try reflexivity; eauto.
  all: try solve [map_solve].
Qed.
End TwoPass.

Arguments first_run : simpl never.
Arguments second_run : simpl never.

(** Taking the conclusion of [two_pass_cases] apart. *)
Ltac open_copy Hb :=
  lazymatch type of Hb with
  | match ?m !! ?k with _ => _ end =>
      first [ match goal with E : m !! k = _ |- _ => rewrite E in Hb end
            | let E := fresh "E" in destruct (m !! k) as [[?|]|] eqn:E ]
  end; cbv beta iota zeta in Hb.

Ltac open_block Hb :=
  repeat lazymatch type of Hb with
  | match ?m !! ?k with _ => _ end =>
      let E := fresh "E" in destruct (m !! k) as [[?|]|] eqn:E
  | if ?b then _ else _ => let E := fresh "E" in destruct b eqn:E
  | let _ := _ in _ => cbv zeta in Hb
  | (∃ _, _) ∧ _ =>
      let e := fresh "e" in destruct Hb as [[e ->] Hb]
  | _ = _ ∧ _ => destruct Hb as [-> Hb]
  | _ ≠ _ ∧ _ => let Hd := fresh "Hd" in destruct Hb as [Hd Hb]
  | _ ∨ _ => destruct Hb as [Hb|Hb]
  | _ = _ => rewrite Hb in *; clear Hb
  end.

(** The three [apply] functions run ExifTool and pass its failure on. *)
Lemma motion_apply f x w :
  GenMotionPhoto.apply_metadata f x w
  = match subprocess_run (GenMotionPhoto.cmd f x) w with
    | (Ok _, w') => (Ok true, w')
    | (Raise e, w') => (Raise e, w')
    end.
Proof.
  unfold GenMotionPhoto.apply_metadata, try_except. rewrite run_bind.
  fold (GenMotionPhoto.cmd f x).
  by destruct (subprocess_run (GenMotionPhoto.cmd f x) w) as [[?|[]] ?].
Qed.

Lemma ultrahdr_apply f x w :
  GenUltraHDRPhoto.apply_ultrahdr_metadata f x w
  = match subprocess_run (GenUltraHDRPhoto.cmd f x) w with
    | (Ok _, w') => (Ok (), w')
    | (Raise e, w') => (Raise e, w')
    end.
Proof. reflexivity. Qed.

Lemma combined_apply f x w :
  GenUltraHdrMotionPhoto.apply_metadata f x w
  = match subprocess_run (GenUltraHdrMotionPhoto.cmd f x) w with
    | (Ok _, w') => (Ok (), w')
    | (Raise e, w') => (Raise e, w')
    end.
Proof. reflexivity. Qed.

(** *** The three entry points

    What [fresh] provides. *)
Lemma fresh_outside w i d k :
  fresh w i d = true →
  k ∈ (map_to_list (nodes w)).*1 ++ paths w i → Path.under d k = false.
Proof.
  unfold fresh. rewrite !andb_true_iff. intros [[[H _] _] _] Hk.
  rewrite forallb_forall in H. apply list_elem_of_In, H in Hk.
  by destruct (Path.under d k).
Qed.

Lemma fresh_node w i d k n :
  fresh w i d = true → nodes w !! k = Some n → Path.under d k = false.
Proof.
  intros H Hk. apply (fresh_outside w i d k H), elem_of_app. left.
  apply list_elem_of_fmap. exists (k, n). split; [done|].
  by apply elem_of_map_to_list.
Qed.

Lemma fresh_path w i d k :
  fresh w i d = true → k ∈ paths w i → Path.under d k = false.
Proof. intros H Hk. apply (fresh_outside w i d k H), elem_of_app. by right. Qed.

Lemma fresh_entries w i d :
  fresh w i d = true →
  let kt := entry w d (tmp_image i) in
  let kx := entry w d (tmp_xmp i) in
  (Path.under d kt = true ∧ Path.dirname kt = d ∧ kt ≠ d)
  ∧ (Path.under d kx = true ∧ Path.dirname kx = d ∧ kx ≠ d) ∧ kt ≠ kx.
Proof.
  unfold fresh, inside.
  rewrite !andb_true_iff, !negb_true_iff, !String.eqb_eq, !String.eqb_neq.
  tauto.
Qed.

Lemma app_calls {A} (l : list A) a b : (l ++ [a]) ++ [b] = l ++ [a; b].
Proof. by rewrite <- app_assoc. Qed.

(** The directories [os.makedirs] adds. *)
Lemma makedirs_cases w photo video output_dir :
  let i := MotionPhoto photo video output_dir in
  if can_make w i
  then makedirs output_dir w
       = (Ok (), World (prepared w i) (cwd w) (exiftool w) (calls w))
  else ∃ e, makedirs output_dir w = (Raise e, w).
Proof.
  intros i. unfold can_make, makedirs, prepared, i. cbn [created_dirs].
  destruct (String.eqb output_dir EmptyString); cbn [negb andb]; [eauto|].
  set (c := Path.chain (resolve w output_dir)).
  destruct (find (is_file w) c) as [x|] eqn:E.
  - apply find_some in E as [Hin Hx].
    replace (forallb (λ k, negb (is_file w k)) c) with false.
    + case_bool_decide; eauto.
    + symmetry. apply not_true_is_false. intros Hall.
      rewrite forallb_forall in Hall. apply Hall in Hin.
      by rewrite Hx in Hin.
  - replace (forallb (λ k, negb (is_file w k)) c) with true; [done|].
    symmetry. apply forallb_forall. intros x Hx.
    by rewrite (find_none _ _ E x Hx).
Qed.

Lemma lookup_dirs (m : gmap string node) (l : list string) k :
  foldr (λ d, <[d := Dir]>) m l !! k
  = if bool_decide (k ∈ l) then Some Dir else m !! k.
Proof.
  induction l as [|a l IH]; simpl; [done|].
  destruct (decide (a = k)) as [->|Hne].
  - rewrite lookup_insert_eq, bool_decide_eq_true_2; [done|by left].
  - rewrite lookup_insert_ne, IH by done.
    rewrite (bool_decide_ext (k ∈ a :: l) (k ∈ l)); [done|].
    rewrite elem_of_cons.
    split; [intros [Heq|Hin]; [congruence|exact Hin] | by right].
Qed.

Lemma prepared_node w i d k n :
  fresh w i d = true → prepared w i !! k = Some n → Path.under d k = false.
Proof.
  intros H. unfold prepared. rewrite lookup_dirs. case_bool_decide as Hk.
  - intros _. apply (fresh_path w i d k H). unfold paths.
    rewrite !elem_of_cons, elem_of_app. auto 6.
  - apply (fresh_node w i d k n H).
Qed.

Lemma prepared_file w i k :
  can_make w i = true → file_in (prepared w i) k = file_at w k.
Proof.
  intros H. unfold file_in, file_at, prepared. rewrite lookup_dirs.
  case_bool_decide as Hk; [|done].
  destruct i; cbn [created_dirs] in Hk; try by apply elem_of_nil in Hk.
  cbn [can_make] in H. apply andb_true_iff in H as [_ H].
  rewrite forallb_forall in H. apply list_elem_of_In, H in Hk.
  unfold is_file in Hk. by destruct (nodes w !! k) as [[]|].
Qed.

(** Folding the explicit terms of a case back into [first_run],
    [second_run] and [sizes]; [m] is the file system the entry point
    works on, [nodes w] or the prepared one. *)
Ltac lookups_in_goal m :=
  repeat match goal with E' : m !! _ = _ |- _ => rewrite E' end.

Ltac to_map :=
  try match goal with Hn : _ = prepared _ _ |- _ => rewrite <- Hn end;
  try unfold prepared; cbn [created_dirs foldr].

Ltac expose m :=
  unfold second_run, first_run, failure, command, descriptor_text,
    first_length, sizes; to_map;
  unfold size_in, segment_keys, tmp_image, tmp_xmp, resolve,
    GenMotionPhoto.cmd, GenUltraHDRPhoto.cmd, GenUltraHdrMotionPhoto.cmd;
  cbn [foldr fmap list_fmap nth argv before descriptor after];
  lookups_in_goal m.

Ltac fold_runs w m i d img :=
  let Hr1 := fresh "Hr1" in let Hr2 := fresh "Hr2" in
  lazymatch goal with
  | E : context [exiftool w ?c img ?x] |- _ =>
      assert (Hr1 : exiftool w c img x = after (first_run w i d img))
        by (expose m; reflexivity);
      rewrite Hr1 in *
  end;
  lazymatch goal with
  | E : context [exiftool w ?c (image (after (first_run w i d img))) ?x] |- _ =>
      assert (Hr2 : exiftool w c (image (after (first_run w i d img))) x
                    = after (second_run w i d img))
        by (rewrite <- Hr1; expose m; reflexivity);
      rewrite Hr2 in *
  end;
  repeat match goal with
  | E : context [Call ?c ?b ?x (after (first_run w i d img))] |- _ =>
      let Hc := fresh "Hc" in
      assert (Hc : Call c b x (after (first_run w i d img)) = first_run w i d img)
        by (expose m; reflexivity);
      rewrite Hc in *; clear Hc
  | E : context [Call ?c ?b ?x (after (second_run w i d img))] |- _ =>
      let Hc := fresh "Hc" in
      assert (Hc : Call c b x (after (second_run w i d img)) = second_run w i d img)
        by (rewrite <- Hr1; expose m; reflexivity);
      rewrite Hc in *; clear Hc
  end;
  clear Hr1 Hr2;
  let c1 := fresh "c1" in let c2 := fresh "c2" in
  let Hc1 := fresh "Hc1" in let Hc2 := fresh "Hc2" in
  remember (first_run w i d img) as c1 eqn:Hc1;
  remember (second_run w i d img) as c2 eqn:Hc2.

(** Whether the checks pass is settled by the lookups of the case. *)
Ltac decide_ready w m i b :=
  let Hr := fresh "Hready" in
  assert (Hr : ready w i = b)
    by (unfold ready;
        try match goal with
            | Hmk : can_make _ _ = _ |- _ => rewrite Hmk
            end;
        cbn [can_make]; to_map;
        unfold file_in, is_jpeg, file_at, segment_keys, primary_key, resolve;
        cbn [foldr forallb];
        lookups_in_goal m;
        repeat match goal with
        | E : bool_decide _ = _ |- _ => rewrite E
        end;
        repeat match goal with
        | |- context [m !! ?k] => destruct (m !! k) as [[?|]|]
        end;
        reflexivity);
  rewrite Hr.

(** No file other than the output changes. *)
Ltac frame_solve :=
  let k := fresh "k" in let Hk := fresh "Hk" in
  intros k Hk; unfold file_at at 1; simpl;
  repeat first [ rewrite lookup_insert_ne by congruence
               | rewrite lookup_delete_ne by congruence ];
  first [ reflexivity
        | match goal with
          | Hf : ∀ k, file_in _ k = file_at _ k |- _ => apply Hf
          end ].

(** Closing a case: the final world is explicit. *)
Ltac close_case w m i :=
  try solve [ exfalso;
              match goal with Hd : _ !! _ ≠ Some Dir |- _ => apply Hd; congruence end ];
  unfold outcome; cbv zeta; to_map;
  unfold output_key, primary_key, segment_keys, resolve;
  split; [reflexivity|]; split; [reflexivity|]; split; [frame_solve|];
  first [ decide_ready w m i true | decide_ready w m i false ];
  first
    [ (* the tool was not reached *)
      split; [eauto|]; split; [reflexivity|];
      try match goal with
          | Hmk : can_make _ _ = _ |- _ => rewrite Hmk
          end;
      reflexivity
    | (* the tool was reached *)
      eexists; split; [unfold file_in; lookups_in_goal m; reflexivity|];
      repeat match goal with Hc : _ = first_run _ _ _ _ |- _ => rewrite <- Hc end;
      repeat match goal with Hc : _ = second_run _ _ _ _ |- _ => rewrite <- Hc end;
      repeat match goal with
      | E : (returncode _ =? 0)%Z = _ |- _ => rewrite E
      end;
      first
        [ (* a failing run *)
          repeat split; rewrite ?app_calls; first [reflexivity | subst; reflexivity]
        | split; [rewrite ?app_calls; reflexivity|];
          let Hr := fresh "Hr" in intros Hr;
          first
            [ discriminate Hr
            | split; [assumption|];
              split; [unfold file_at; simpl; rewrite lookup_insert_eq; eauto|];
              split;
              [ let k := fresh "k" in let Hk := fresh "Hk" in
                intros k Hk; simpl;
                repeat rewrite lookup_insert_ne by congruence; reflexivity|];
              eexists; split;
              [ repeat (econstructor;
                        [unfold file_in; lookups_in_goal m; reflexivity|]);
                constructor
              | let Hn := fresh "Hn" in intros Hn;
                first
                  [ exfalso; apply Hn; rewrite !elem_of_cons; solve [auto]
                  | rewrite ?insert_insert_eq; cbn [concat];
                    rewrite ?app_nil_r, <- ?app_assoc; reflexivity ] ] ] ] ].

(** The temporary-directory block of an entry point. *)
Ltac block_open Hb :=
  lazymatch goal with
  | H : context [TemporaryDirectory ?dd ?body ?W] |- _ =>
      destruct (TemporaryDirectory dd body W) as [? ?] eqn:Hb
  end.

Ltac block_close w m i d H Hb :=
  lazymatch type of Hb with
  | cwd ?wb = _ ∧ _ => destruct wb as [? ? ? ?]
  end;
  unfold resolve in *; simpl in Hb; destruct Hb as (-> & -> & Hb);
  open_copy Hb;
  try match goal with
      | E : m !! _ = Some (File ?img) |- _ =>
          lazymatch type of Hb with context [img] => fold_runs w m i d img end
      end;
  try (open_block Hb; simpl in H).

(** What [fresh] gives for the paths of a call. *)
Ltac prelude w i d Hfresh :=
  destruct (fresh_entries w i d Hfresh) as (Hkt & Hkx & Hktx);
  assert (Hko : Path.under d (output_key w i) = false)
    by (apply (fresh_path w i d _ Hfresh); unfold paths;
        rewrite !elem_of_cons; auto);
  assert (Hkod : Path.under d (Path.dirname (output_key w i)) = false)
    by (apply (fresh_path w i d _ Hfresh); unfold paths;
        rewrite !elem_of_cons; auto);
  assert (Hks : Path.under d (primary_key w i) = false)
    by (apply (fresh_path w i d _ Hfresh); unfold paths;
        rewrite !elem_of_cons; auto);
  unfold tmp_image, tmp_xmp, entry, output_key, primary_key in *.

Lemma combined_cases sdr gm video out params d w r w' :
  fresh w (HdrMotion sdr gm video out params) d = true →
  run (HdrMotion sdr gm video out params) d w = (r, w') →
  outcome (HdrMotion sdr gm video out params) d w r w'.
Proof.
  intros Hfresh H.
  pose proof (λ k n, fresh_node w _ d k n Hfresh) as Hnode.
  prelude w (HdrMotion sdr gm video out params) d Hfresh. clear Hfresh.
  simpl in H. rewrite combined_block in H.
  unfold resolve in *.
  repeat (step H Hnode combined_apply).
  all: try (block_open Hb;
    apply (two_pass_cases _ () GenUltraHdrMotionPhoto.cmd _ _ _ _ _ _ _ _
             combined_apply (λ _ _, eq_refl) (λ _ _, eq_refl)
             Hnode Hks Hko Hkod Hkt Hkx Hktx) in Hb;
    block_close w (nodes w) (HdrMotion sdr gm video out params) d H Hb).
  all: repeat (step H Hnode combined_apply).
  all: injection H as <- <-.
  all: close_case w (nodes w) (HdrMotion sdr gm video out params).
Qed.

Lemma motion_cases photo video output_dir d w r w' :
  fresh w (MotionPhoto photo video output_dir) d = true →
  run (MotionPhoto photo video output_dir) d w = (r, w') →
  outcome (MotionPhoto photo video output_dir) d w r w'.
Proof.
  intros Hfresh H.
  pose proof (λ k n, prepared_node w _ d k n Hfresh) as Hnode.
  prelude w (MotionPhoto photo video output_dir) d Hfresh. clear Hfresh.
  simpl in H. rewrite motion_block in H.
  repeat (step H Hnode motion_apply).
  pose proof (makedirs_cases w photo video output_dir) as Hm. cbv zeta in Hm.
  destruct (can_make w (MotionPhoto photo video output_dir)) eqn:Hmk.
  - pose proof (λ k, prepared_file w _ k Hmk) as Hfile.
    rewrite Hm in H.
    remember (prepared w (MotionPhoto photo video output_dir)) as n1 eqn:Hn1.
    simpl in H. unfold resolve in *.
    repeat (step H Hnode motion_apply).
    all: try (block_open Hb;
      apply (two_pass_cases _ true GenMotionPhoto.cmd _ _ _ _ _ _ _
               (World n1 (cwd w) (exiftool w) (calls w)) motion_apply
               (λ _ _, eq_refl) (λ _ _, eq_refl)
               Hnode Hks Hko Hkod Hkt Hkx Hktx) in Hb;
      block_close w n1 (MotionPhoto photo video output_dir) d H Hb).
    all: repeat (step H Hnode motion_apply).
    all: injection H as <- <-.
    all: close_case w n1 (MotionPhoto photo video output_dir).
  - destruct Hm as [e Hm]. rewrite Hm in H. simpl in H.
    injection H as <- <-.
    close_case w (nodes w) (MotionPhoto photo video output_dir).
Qed.

Lemma ultrahdr_cases sdr gainmap out params d w r w' :
  fresh w (UltraHdr sdr gainmap out params) d = true →
  run (UltraHdr sdr gainmap out params) d w = (r, w') →
  outcome (UltraHdr sdr gainmap out params) d w r w'.
Proof.
  intros Hfresh H.
  pose proof (λ k n, fresh_node w _ d k n Hfresh) as Hnode.
  prelude w (UltraHdr sdr gainmap out params) d Hfresh. clear Hfresh.
  simpl in H. rewrite ultra_block in H.
  unfold resolve in *.
  repeat (step H Hnode ultrahdr_apply).
  all: try (block_open Hb;
    apply (two_pass_cases _ () GenUltraHDRPhoto.cmd _ _ _ _ _ _ _ _
             ultrahdr_apply (λ _ _, eq_refl) (λ _ _, eq_refl)
             Hnode Hks Hko Hkod Hkt Hkx Hktx) in Hb;
    block_close w (nodes w) (UltraHdr sdr gainmap out params) d H Hb).
  all: repeat (step H Hnode ultrahdr_apply).
  all: injection H as <- <-.
  all: close_case w (nodes w) (UltraHdr sdr gainmap out params).
Qed.

(** Every call of an entry point ends as [outcome] says. *)
Lemma run_cases i d w r w' :
  fresh w i d = true → run i d w = (r, w') → outcome i d w r w'.
Proof.
  destruct i.
  - apply motion_cases.
  - apply ultrahdr_cases.
  - apply combined_cases.
Qed.

End Exec.

(** ** What the entry points guarantee *)

Module Runs.
Import Text Os Pipeline Exec.

(** The directory of each descriptor. *)
Lemma reading i n ls :
  directory (descriptor_text i n ls)
  = match i with
    | MotionPhoto _ _ _ =>
        [Item "image/jpeg" "Primary" (str_int n);
         Item "video/mp4" "MotionPhoto" (str_int (nth 0 ls 0%Z))]
    | UltraHdr _ _ _ _ =>
        [Item "image/jpeg" "Primary" "0";
         Item "image/jpeg" "GainMap" (str_int (nth 0 ls 0%Z))]
    | HdrMotion _ _ _ _ _ =>
        [Item "image/jpeg" "Primary" (str_int n);
         Item "image/jpeg" "GainMap" (str_int (nth 0 ls 0%Z));
         Item "video/mp4" "MotionPhoto" (str_int (nth 1 ls 0%Z))]
    end.
Proof.
  destruct i as [? ? ?|? ? ? p|? ? ? ? p]; unfold descriptor_text.
  - destruct (Descriptors.motion_reading n (nth 0 ls 0%Z)) as [Hs H].
    by rewrite Hs.
  - destruct (Descriptors.ultrahdr_reading n (nth 0 ls 0%Z) p) as (Hs & H & _).
    by rewrite Hs.
  - destruct (Descriptors.combined_reading n (nth 0 ls 0%Z) (nth 1 ls 0%Z) p)
      as (Hs & H & _).
    by rewrite Hs.
Qed.

Lemma declared_first w i d img :
  declared (first_run w i d img)
  = directory (descriptor_text i (first_length i (Z.of_nat (length img)))
                 (sizes w i)).
Proof.
  unfold declared, first_run, text_of. cbn [descriptor].
  by rewrite TextFacts.text_of_bytes.
Qed.

Lemma declared_second w i d img :
  declared (second_run w i d img)
  = directory (descriptor_text i
                 (Z.of_nat (length (image (after (first_run w i d img)))))
                 (sizes w i)).
Proof.
  unfold declared, second_run, text_of. cbn [descriptor].
  by rewrite TextFacts.text_of_bytes.
Qed.

(** The measured sizes are those of the segment files. *)
Lemma sizes_segments w i segs :
  Forall2 (λ k s, file_in (prepared w i) k = Some s) (segment_keys w i) segs →
  sizes w i = (λ s, Z.of_nat (length s)) <$> segs.
Proof.
  unfold sizes. generalize (segment_keys w i). intros ks H.
  induction H as [|k s ks segs Hk _ IH]; [done|].
  cbn [fmap list_fmap]. f_equal; [|exact IH].
  unfold size_in, file_in in *.
  destruct (prepared w i !! k) as [[?|]|]; congruence.
Qed.

Lemma ready_can_make w i : ready w i = true → can_make w i = true.
Proof. unfold ready. rewrite !andb_true_iff. tauto. Qed.

Lemma run_ends i d w r w' :
  fresh w i d = true → run i d w = (r, w') → ending i d w r w'.
Proof.
  intros Hf Hr. destruct (run_cases i d w r w' Hf Hr) as (_ & _ & _ & H).
  destruct (ready w i) eqn:Hready.
  - pose proof (ready_can_make w i Hready) as Hmk.
    destruct H as (img & Himg & H). cbv zeta in H.
    rewrite prepared_file in Himg by done.
    destruct (returncode (after (first_run w i d img)) =? 0)%Z eqn:E1.
    + apply Z.eqb_eq in E1.
      destruct (returncode (after (second_run w i d img)) =? 0)%Z eqn:E2.
      * apply Z.eqb_eq in E2. destruct H as [Hc H].
        apply (Injected i d w r w' img); try done.
        intros ->. destruct (H eq_refl) as (Hd & Ho & Hfr & segs & Hsegs & Hn).
        split; [done|]. split; [done|]. split; [done|]. exists segs.
        split; [|split; [by apply sizes_segments | done]].
        eapply Forall2_impl; [exact Hsegs|]. intros k s Hk.
        by rewrite <- (prepared_file w i k Hmk).
      * apply Z.eqb_neq in E2. destruct H as (-> & Hc & Hn).
        by apply (SecondFailed i d w _ w' img).
    + apply Z.eqb_neq in E1. destruct H as (-> & Hc & Hn).
      by apply (FirstFailed i d w _ w' img).
  - destruct H as (He & Hc & Hn). by apply Rejected.
Qed.

Lemma two_calls {A} (l : list A) a b c d :
  l ++ [a; b] = l ++ [c; d] → a = c ∧ b = d.
Proof. intros H. apply app_inv_head in H. by injection H. Qed.

Lemma not_one_call {A} (l : list A) a b c : l ++ [a; b] ≠ l ++ [c].
Proof. intros H. apply app_inv_head in H. discriminate. Qed.

Lemma not_no_call {A} (l k : list A) a : l ++ a :: k ≠ l.
Proof.
  intros H. apply (f_equal length) in H. rewrite length_app in H.
  simpl in H. lia.
Qed.

End Runs.

(** ** The claims *)

Module Claims.
Import Text Os Pipeline Exec Runs.



(** C1.  A call that returns has run ExifTool twice, each time with a
    descriptor built for it.  Whenever ExifTool is run twice, the second
    run works on the image the first run left.  The descriptor of the
    first run declares, as the length of the Primary item, the size of
    the copy (motion photo) or 0 (the other two entry points); the
    descriptor of the second run declares the size of the image measured
    after the first injection for the motion photo and the combined
    entry points, but still the literal 0 for the gain-map entry point,
    whose template does not use the measured size. *)
Theorem primary_length_declared i d w r w' :
  fresh w i d = true → run i d w = (r, w') →
  (r = Ok () → ∃ c1 c2, calls w' = calls w ++ [c1; c2])
  ∧ ∀ c1 c2,
      calls w' = calls w ++ [c1; c2] →
      before c2 = image (after c1)
      ∧ Length <$> head (declared c1)
        = Some (str_int (first_length i (Z.of_nat (length (before c1)))))
      ∧ Length <$> head (declared c2)
        = Some (match i with
                | UltraHdr _ _ _ _ => "0"
                | _ => str_int (Z.of_nat (length (before c2)))
                end).
Proof.
  intros Hf Hr. pose proof (run_ends i d w r w' Hf Hr) as Hend. split.
  - intros ->.
    destruct Hend as [? [e ?]| | |img ? ? ? ? Hc _]; try discriminate.
    by exists (first_run w i d img), (second_run w i d img).
  - intros c1 c2 Hc.
    assert (∃ img, c1 = first_run w i d img ∧ c2 = second_run w i d img)
      as (img & -> & ->).
    { destruct Hend
        as [? ? Hc'|img ? ? ? ? Hc'|img ? ? ? ? ? Hc'|img ? ? ? ? Hc'];
        rewrite Hc in Hc'.
      - by apply not_no_call in Hc'.
      - by apply not_one_call in Hc'.
      - exists img. by apply two_calls in Hc'.
      - exists img. by apply two_calls in Hc'. }
    split; [reflexivity|].
    rewrite declared_first, declared_second, !reading.
    split; destruct i; reflexivity.
Qed.





(** C6.  In the descriptor of the gain-map entry point each of the five
    tone-mapping elements holds the value supplied under its key, or the
    default when the key is absent: 0.0, 1.0, 1.0, 0.0 and 2.0.  In the
    descriptor of the combined entry point the same holds for four
    elements, with the defaults 0.0, 2.1, 1.0 and 2.1; there is no
    HDRCapacityMin element, whatever is supplied. *)
Theorem tone_mapping_parameters (n g v : Z) (p : gmap string pyvalue) :
  let u := GenUltraHDRPhoto.xmp_content n g p in
  let c := GenUltraHdrMotionPhoto.xmp_content n g v p in
  (element_texts "hdrgm:GainMapMin" u = [str (default f0_0 (p !! "gainMapMin"))]
   ∧ element_texts "hdrgm:GainMapMax" u = [str (default f1_0 (p !! "gainMapMax"))]
   ∧ element_texts "hdrgm:Gamma" u = [str (default f1_0 (p !! "gamma"))]
   ∧ element_texts "hdrgm:HDRCapacityMin" u
     = [str (default f0_0 (p !! "hdrCapacityMin"))]
   ∧ element_texts "hdrgm:HDRCapacityMax" u
     = [str (default f2_0 (p !! "hdrCapacityMax"))])
  ∧ (element_texts "hdrgm:GainMapMin" c = [str (default f0_0 (p !! "gainMapMin"))]
     ∧ element_texts "hdrgm:GainMapMax" c = [str (default f2_1 (p !! "gainMapMax"))]
     ∧ element_texts "hdrgm:Gamma" c = [str (default f1_0 (p !! "gamma"))]
     ∧ element_texts "hdrgm:HDRCapacityMax" c
       = [str (default f2_1 (p !! "hdrCapacityMax"))]
     ∧ element_texts "hdrgm:HDRCapacityMin" c = [])
  ∧ (str f0_0 = "0.0" ∧ str f1_0 = "1.0" ∧ str f2_0 = "2.0" ∧ str f2_1 = "2.1").
Proof.
  intros u c.
  assert (Hget : ∀ key dflt, get p key dflt = default dflt (p !! key)).
  { intros key dflt. unfold get. by destruct (p !! key). }
  destruct (Descriptors.ultrahdr_reading n g p)
    as (_ & _ & H1 & H2 & H3 & H4 & H5).
  destruct (Descriptors.combined_reading n g v p)
    as (_ & _ & K1 & K2 & K3 & K4 & K5).
  rewrite Hget in H1, H2, H3, H4, H5, K1, K2, K3, K4.
  split; [|split].
  - exact (conj H1 (conj H2 (conj H3 (conj H4 H5)))).
  - exact (conj K1 (conj K2 (conj K3 (conj K4 K5)))).
  - repeat apply conj; reflexivity.
Qed.

(** C7.  Each of the three functions that run ExifTool on a file [f] with
    a descriptor [x] fails exactly when the exit status of the tool is
    not 0, whatever the tool wrote to its error stream; the exception
    then carries the exit status, the command line and the two captured
    streams. *)
Theorem injector_result f x w img xmp :
  file_at w (resolve w f) = Some img →
  file_at w (resolve w x) = Some xmp →
  let verdict {T} (cmd : list string) (t : T) : result T :=
    let r := exiftool w cmd img xmp in
    if (returncode r =? 0)%Z then Ok t
    else Raise (CalledProcessError (returncode r) cmd (stdout r) (stderr r)) in
  (GenMotionPhoto.apply_metadata f x w).1
  = verdict (GenMotionPhoto.cmd f x) true
  ∧ (GenUltraHDRPhoto.apply_ultrahdr_metadata f x w).1
    = verdict (GenUltraHDRPhoto.cmd f x) ()
  ∧ (GenUltraHdrMotionPhoto.apply_metadata f x w).1
    = verdict (GenUltraHdrMotionPhoto.cmd f x) ().
Proof.
  intros Hf Hx verdict. unfold verdict.
  rewrite motion_apply, ultrahdr_apply, combined_apply.
  unfold subprocess_run.
  change (List.last (GenMotionPhoto.cmd f x) EmptyString) with f.
  change (List.last (GenUltraHDRPhoto.cmd f x) EmptyString) with f.
  change (List.last (GenUltraHdrMotionPhoto.cmd f x) EmptyString) with f.
  change (xmp_argument (GenMotionPhoto.cmd f x)) with x.
  change (xmp_argument (GenUltraHDRPhoto.cmd f x)) with x.
  change (xmp_argument (GenUltraHdrMotionPhoto.cmd f x)) with x.
  rewrite Hf, Hx. cbv zeta.
  repeat split;
    match goal with
    | |- context [(returncode ?r =? 0)%Z] =>
        by destruct (returncode r =? 0)%Z
    end.
Qed.






End Claims.

(** ** Examples in the small world *)

Module Examples.
Import Text Os Pipeline Runs Claims Demo.

(** The runs below are evaluated. *)
Ltac evaluate := vm_compute; reflexivity.
Ltac decided :=
  lazymatch goal with
  | |- ?P => apply (bool_decide_unpack P); vm_compute; exact I
  end.

(** The gain-map entry point with the stand-in tool: the image measures
    1324 bytes after the first injection, and both descriptors declare 0
    for the Primary item. *)
Lemma primary_length_declared_witness :
  let w := world_with embed in
  let c1 := first_run w ultrahdr tmp jpg in
  let c2 := second_run w ultrahdr tmp jpg in
  length (image (after c1)) = 1324
  ∧ before c2 = image (after c1)
  ∧ Length <$> head (declared c1) = Some "0"
  ∧ Length <$> head (declared c2) = Some "0".
Proof.
  intros w c1 c2. split; [evaluate|].
  refine (proj2 (primary_length_declared ultrahdr tmp w
                   (run ultrahdr tmp w).1 (run ultrahdr tmp w).2 _ _)
                c1 c2 _).
  - evaluate.
  - apply surjective_pairing.
  - evaluate.
Defined.







(** [hdrCapacityMin] is supplied: the combined descriptor does not hold
    it and is the one built without it; the gain-map descriptor holds
    it. *)
Lemma tone_mapping_parameters_counterexample :
  let supplied : gmap string pyvalue := {["hdrCapacityMin" := f0_5]} in
  str f0_5 = "0.5"
  ∧ element_texts "hdrgm:HDRCapacityMin"
      (GenUltraHdrMotionPhoto.xmp_content 1451 6 4 supplied) = []
  ∧ GenUltraHdrMotionPhoto.xmp_content 1451 6 4 supplied
    = GenUltraHdrMotionPhoto.xmp_content 1451 6 4 ∅
  ∧ element_texts "hdrgm:HDRCapacityMin"
      (GenUltraHDRPhoto.xmp_content 1324 6 supplied) = ["0.5"].
Proof. intros supplied. repeat apply conj; evaluate. Qed.

(** A tool that exits with 1. *)
Lemma injector_result_witness :
  let w := staged broken in
  let f := "/tmp/tmpk3x9q2ab/temp_image.jpg" in
  let x := "/tmp/tmpk3x9q2ab/motion.xmp" in
  (GenMotionPhoto.apply_metadata f x w).1
  = Raise (CalledProcessError 1 (GenMotionPhoto.cmd f x) EmptyString
             "Error: Not a valid JPG")
  ∧ (GenUltraHDRPhoto.apply_ultrahdr_metadata f x w).1
    = Raise (CalledProcessError 1 (GenUltraHDRPhoto.cmd f x) EmptyString
               "Error: Not a valid JPG")
  ∧ (GenUltraHdrMotionPhoto.apply_metadata f x w).1
    = Raise (CalledProcessError 1 (GenUltraHdrMotionPhoto.cmd f x) EmptyString
               "Error: Not a valid JPG").
Proof.
  intros w f x. apply (injector_result f x w jpg descriptor).
  - evaluate.
  - evaluate.
Defined.

(** A tool that exits with 0 and writes a warning to its error stream:
    the three functions return, and a whole call succeeds. *)
Lemma injector_result_counterexample :
  let w := staged warning in
  let f := "/tmp/tmpk3x9q2ab/temp_image.jpg" in
  let x := "/tmp/tmpk3x9q2ab/motion.xmp" in
  let r := exiftool w (GenMotionPhoto.cmd f x) jpg descriptor in
  returncode r = 0%Z
  ∧ stderr r = "Warning: [minor] Unknown MPF tag"
  ∧ (GenMotionPhoto.apply_metadata f x w).1 = Ok true
  ∧ (GenUltraHDRPhoto.apply_ultrahdr_metadata f x w).1 = Ok ()
  ∧ (GenUltraHdrMotionPhoto.apply_metadata f x w).1 = Ok ()
  ∧ (run motion tmp (world_with warning)).1 = Ok ().
Proof. intros w f x r. repeat apply conj; evaluate. Qed.





End Examples.

(** * Further properties *)

(** ** Every call in detail *)

Module Finishing.
Import Text Os Pipeline Exec Runs Detail.

(** The three entry points are evaluated once more, this time down to
    the exception of each failing case.

    Every path other than the output names what it named. *)
Ltac nodes_frame :=
  let k := fresh "k" in let Hk := fresh "Hk" in
  intros k Hk;
  try match goal with Hmk : can_make _ _ = _ |- _ => rewrite Hmk end;
  cbn [can_make]; simpl;
  repeat first [ rewrite lookup_insert_ne by congruence
               | rewrite lookup_delete_ne by congruence ];
  reflexivity.

(** The definitions [detail] is made of. *)
Ltac unfold_detail :=
  unfold detail, finish, placing, append_error, rejection, absent, unreadable,
    not_jpeg, output_path, segment_paths; cbv zeta.

(** The lookups and the decisions of a case. *)
Ltac rewrite_facts m :=
  lookups_in_goal m;
  repeat match goal with
  | E : bool_decide _ = _ |- _ => rewrite E
  | E : makedirs_error _ _ = _ |- _ => rewrite E
  end.

(** Closing a case: the result and the final world are explicit. *)
Ltac close_detail w m i :=
  unfold_detail; to_map;
  unfold output_key, primary_key, segment_keys, resolve;
  split; [nodes_frame|];
  first [ decide_ready w m i true | decide_ready w m i false ];
  first
    [ (* the call is rejected *)
      eexists; split;
      [ cbn [first_error fmap list_fmap]; rewrite_facts m;
        cbn [first_error]; rewrite_facts m; cbn [first_error]; rewrite_facts m;
        cbn [first_error]; reflexivity
      | reflexivity ]
    | (* the tool was reached *)
      eexists; split; [unfold file_in; lookups_in_goal m; reflexivity|];
      repeat match goal with Hc : _ = first_run _ _ _ _ |- _ => rewrite <- Hc end;
      repeat match goal with Hc : _ = second_run _ _ _ _ |- _ => rewrite <- Hc end;
      repeat match goal with
      | E : (returncode _ =? 0)%Z = _ |- _ => rewrite E
      end;
      first
        [ exact I
        | try match goal with e : ?a = Path.dirname ?a |- _ => rewrite <- e end;
          rewrite_facts m;
          first
            [ split; reflexivity
            | let Hn := fresh "Hn" in intros Hn;
              first
                [ exfalso; apply Hn; rewrite !elem_of_cons; solve [auto]
                | cbn [first_error fmap list_fmap leading_files]; rewrite_facts m;
                  cbn [first_error]; rewrite_facts m; cbn [first_error];
                  split;
                  [ reflexivity
                  | simpl; rewrite ?insert_insert_eq; cbn [concat];
                    rewrite ?app_nil_r, <- ?app_assoc; reflexivity ] ] ] ] ].

(** The three entry points. *)
Lemma combined_detail sdr gm video out params d w r w' :
  fresh w (HdrMotion sdr gm video out params) d = true →
  run (HdrMotion sdr gm video out params) d w = (r, w') →
  detail (HdrMotion sdr gm video out params) d w r w'.
Proof.
  intros Hfresh H.
  pose proof (λ k n, fresh_node w _ d k n Hfresh) as Hnode.
  prelude w (HdrMotion sdr gm video out params) d Hfresh. clear Hfresh.
  simpl in H. rewrite combined_block in H.
  unfold resolve in *.
  repeat (step H Hnode combined_apply).
  all: try (block_open Hb;
    apply (two_pass_exact _ () GenUltraHdrMotionPhoto.cmd _ _ _ _ _ _ _ _
             combined_apply (λ _ _, eq_refl) (λ _ _, eq_refl)
             Hnode Hks Hko Hkod Hkt Hkx Hktx) in Hb;
    block_close w (nodes w) (HdrMotion sdr gm video out params) d H Hb).
  all: repeat (step H Hnode combined_apply).
  all: injection H as <- <-.
  all: try solve [close_detail w (nodes w) (HdrMotion sdr gm video out params)].
Qed.

Lemma ultrahdr_detail sdr gainmap out params d w r w' :
  fresh w (UltraHdr sdr gainmap out params) d = true →
  run (UltraHdr sdr gainmap out params) d w = (r, w') →
  detail (UltraHdr sdr gainmap out params) d w r w'.
Proof.
  intros Hfresh H.
  pose proof (λ k n, fresh_node w _ d k n Hfresh) as Hnode.
  prelude w (UltraHdr sdr gainmap out params) d Hfresh. clear Hfresh.
  simpl in H. rewrite ultra_block in H.
  unfold resolve in *.
  repeat (step H Hnode ultrahdr_apply).
  all: try (block_open Hb;
    apply (two_pass_exact _ () GenUltraHDRPhoto.cmd _ _ _ _ _ _ _ _
             ultrahdr_apply (λ _ _, eq_refl) (λ _ _, eq_refl)
             Hnode Hks Hko Hkod Hkt Hkx Hktx) in Hb;
    block_close w (nodes w) (UltraHdr sdr gainmap out params) d H Hb).
  all: repeat (step H Hnode ultrahdr_apply).
  all: injection H as <- <-.
  all: try solve [close_detail w (nodes w) (UltraHdr sdr gainmap out params)].
Qed.

(** [os.makedirs] fails as [makedirs_error] says. *)
Lemma makedirs_exact w photo video output_dir :
  let i := MotionPhoto photo video output_dir in
  match makedirs_error w output_dir with
  | Some e => makedirs output_dir w = (Raise e, w) ∧ can_make w i = false
  | None =>
      makedirs output_dir w
      = (Ok (), World (prepared w i) (cwd w) (exiftool w) (calls w))
      ∧ can_make w i = true
  end.
Proof.
  intros i. pose proof (makedirs_cases w photo video output_dir) as H.
  cbv zeta in H. fold i in H.
  unfold makedirs_error, makedirs in *.
  destruct (String.eqb output_dir EmptyString) eqn:E0.
  - destruct (can_make w i) eqn:Hmk; [discriminate H|done].
  - destruct (find (is_file w) (Path.chain (resolve w output_dir))) as [x|].
    + destruct (can_make w i) eqn:Hmk.
      * by case_bool_decide.
      * by case_bool_decide.
    + destruct (can_make w i) eqn:Hmk; [done|]. by destruct H.
Qed.

Lemma motion_detail photo video output_dir d w r w' :
  fresh w (MotionPhoto photo video output_dir) d = true →
  run (MotionPhoto photo video output_dir) d w = (r, w') →
  detail (MotionPhoto photo video output_dir) d w r w'.
Proof.
  intros Hfresh H.
  pose proof (λ k n, prepared_node w _ d k n Hfresh) as Hnode.
  prelude w (MotionPhoto photo video output_dir) d Hfresh. clear Hfresh.
  simpl in H. rewrite motion_block in H.
  repeat (step H Hnode motion_apply).
  pose proof (makedirs_exact w photo video output_dir) as Hm. cbv zeta in Hm.
  destruct (makedirs_error w output_dir) as [e|] eqn:Hme;
    destruct Hm as [Hm Hmk]; rewrite Hm in H.
  - simpl in H. injection H as <- <-.
    close_detail w (nodes w) (MotionPhoto photo video output_dir).
  - pose proof (λ k, prepared_file w _ k Hmk) as Hfile.
    remember (prepared w (MotionPhoto photo video output_dir)) as n1 eqn:Hn1.
    simpl in H. unfold resolve in *.
    repeat (step H Hnode motion_apply).
    all: try (block_open Hb;
      apply (two_pass_exact _ true GenMotionPhoto.cmd _ _ _ _ _ _ _
               (World n1 (cwd w) (exiftool w) (calls w)) motion_apply
               (λ _ _, eq_refl) (λ _ _, eq_refl)
               Hnode Hks Hko Hkod Hkt Hkx Hktx) in Hb;
      block_close w n1 (MotionPhoto photo video output_dir) d H Hb).
    all: repeat (step H Hnode motion_apply).
    all: injection H as <- <-.
    all: try solve [close_detail w n1 (MotionPhoto photo video output_dir)].
Qed.

(** Every call of an entry point ends as [detail] says. *)
Lemma run_detail i d w r w' :
  fresh w i d = true → run i d w = (r, w') → detail i d w r w'.
Proof.
  destruct i.
  - apply motion_detail.
  - apply ultrahdr_detail.
  - apply combined_detail.
Qed.

(** A world is its four components. *)
Lemma world_eq (w w' : world) m :
  nodes w' = m → cwd w' = cwd w → exiftool w' = exiftool w →
  calls w' = calls w → w' = World m (cwd w) (exiftool w) (calls w).
Proof. destruct w'. simpl. by intros -> -> -> ->. Qed.

(** The segment keys are what the segment paths name. *)
Lemma segment_keys_paths w i :
  segment_keys w i = resolve w <$> segment_paths w i.
Proof. by destruct i. Qed.

(** Something is there, or is not. *)
Ltac settle :=
  exfalso;
  match goal with
  | H : ¬ is_Some (Some _) |- _ => apply H; eauto
  | H : is_Some None |- _ => by destruct H
  end.

(** The checks pass exactly when no check fails. *)
Lemma rejection_ready w i : rejection w i = None ↔ ready w i = true.
Proof.
  unfold ready, rejection, absent, unreadable, not_jpeg, is_jpeg, file_at,
    file_in.
  destruct i as [photo video od|sdr gm out p|sdr gm video out p];
    cbn [can_make segment_keys primary_key forallb first_error].
  - pose proof (makedirs_exact w photo video od) as Hm. cbv zeta in Hm.
    destruct (makedirs_error w od) as [e|]; destruct Hm as [_ Hmk];
      cbn [can_make] in Hmk; rewrite Hmk; cbn [andb first_error]; [done|].
    destruct (prepared w (MotionPhoto photo video od)
                !! resolve w (Path.abspath (cwd w) video)) as [?|];
      destruct (prepared w (MotionPhoto photo video od)
                  !! resolve w (Path.abspath (cwd w) photo)) as [[?|]|];
      cbn; split; try done; try (by intros [? ?]);
      rewrite ?bool_decide_eq_true_2; eauto;
      rewrite ?bool_decide_eq_false_2; try done; by intros [? ?].
  - unfold prepared. cbn [created_dirs foldr].
    destruct (nodes w !! resolve w (Path.abspath (cwd w) sdr)) as [[S|]|];
      destruct (nodes w !! resolve w (Path.abspath (cwd w) gm)) as [[G|]|];
      cbn; repeat case_bool_decide; cbn; split; intros ?; try done; settle.
  - unfold prepared. cbn [created_dirs foldr].
    destruct (nodes w !! resolve w gm) as [?|];
      destruct (nodes w !! resolve w video) as [?|];
      destruct (nodes w !! resolve w sdr) as [[?|]|];
      cbn; repeat case_bool_decide; cbn; split; intros ?; try done; settle.
Qed.

(** A call that fails a check raises the exception of the first check
    that fails; nothing but [os.makedirs] has touched the world. *)
Lemma rejected i d w r w' e :
  fresh w i d = true → run i d w = (r, w') → rejection w i = Some e →
  r = Raise e
  ∧ w' = World (if can_make w i then prepared w i else nodes w)
               (cwd w) (exiftool w) (calls w).
Proof.
  intros Hf Hr He.
  assert (Hready : ready w i = false).
  { destruct (ready w i) eqn:E; [|done].
    apply rejection_ready in E. congruence. }
  destruct (run_detail i d w r w' Hf Hr) as [_ H]. rewrite Hready in H.
  destruct H as (e' & He' & ->). rewrite He in He'. injection He' as <-.
  split; [done|].
  destruct (run_cases i d w _ w' Hf Hr) as (Hc & Ht & _ & H).
  rewrite Hready in H. destruct H as (_ & Hcalls & Hn).
  by apply world_eq.
Qed.

(** A call whose two runs of ExifTool succeed ends as [finish] says. *)
Lemma finished i d w r w' img :
  fresh w i d = true → run i d w = (r, w') →
  ready w i = true → file_at w (primary_key w i) = Some img →
  returncode (after (first_run w i d img)) = 0%Z →
  returncode (after (second_run w i d img)) = 0%Z →
  finish i w (image (after (second_run w i d img))) r w'
  ∧ calls w' = calls w ++ [first_run w i d img; second_run w i d img].
Proof.
  intros Hf Hr Hready Himg H1 H2.
  destruct (run_detail i d w r w' Hf Hr) as [_ H]. rewrite Hready in H.
  destruct H as (img' & Himg' & H).
  rewrite prepared_file in Himg' by by apply ready_can_make.
  rewrite Himg in Himg'. injection Himg' as <-.
  apply Z.eqb_eq in H1, H2. rewrite H1, H2 in H. split; [done|].
  destruct (run_cases i d w r w' Hf Hr) as (_ & _ & _ & H').
  rewrite Hready in H'. destruct H' as (img' & Himg' & H'). cbv zeta in H'.
  rewrite prepared_file in Himg' by by apply ready_can_make.
  rewrite Himg in Himg'. injection Himg' as <-.
  rewrite H1, H2 in H'. by destruct H'.
Qed.

End Finishing.

(** ** Errors, unfinished outputs, descriptors and scripts *)

Module Behaviour.
Import Text Os Pipeline Exec Runs Detail Finishing Scripts.

(** A world rebuilt from its components. *)
Lemma same_world (w : world) :
  World (nodes w) (cwd w) (exiftool w) (calls w) = w.
Proof. by destruct w. Qed.


(** All segments are appended when each is a regular file. *)
Lemma append_all (m : gmap string node) w ps :
  first_error (unreadable m w <$> ps) = None
  ↔ Forall (λ k, is_Some (file_in m k)) (resolve w <$> ps).
Proof.
  induction ps as [|a ps IH]; cbn; [by split|].
  rewrite Forall_cons, <- IH. unfold unreadable at 1, file_in at 1.
  destruct (m !! resolve w a) as [[?|]|]; split; try done; eauto.
  - by intros [_ ?].
  - by intros [[? ?] _].
  - by intros [[? ?] _].
Qed.


(** X2.  The checks of [gen_ultra_hdr], in their order: the SDR image is
    looked at before the gain map; an image that is not there gives
    [FileNotFoundError], one that does not start with FF D8 gives
    [ValueError], each for the absolute path of the image; the world is
    left as it was and ExifTool is not run. *)
Theorem ultrahdr_input_checks sdr gainmap out params d w r w' :
  let i := UltraHdr sdr gainmap out params in
  let abs_sdr := Path.abspath (cwd w) sdr in
  let abs_gm := Path.abspath (cwd w) gainmap in
  fresh w i d = true → run i d w = (r, w') →
  (nodes w !! resolve w abs_sdr = None →
   r = Raise (FileNotFoundError abs_sdr) ∧ w' = w)
  ∧ (∀ S, file_at w (resolve w abs_sdr) = Some S →
          take 2 S ≠ [Byte.xff; Byte.xd8] →
          r = Raise (ValueError abs_sdr) ∧ w' = w)
  ∧ (is_jpeg w (resolve w abs_sdr) = true →
     (nodes w !! resolve w abs_gm = None →
      r = Raise (FileNotFoundError abs_gm) ∧ w' = w)
     ∧ (∀ G, file_at w (resolve w abs_gm) = Some G →
             take 2 G ≠ [Byte.xff; Byte.xd8] →
             r = Raise (ValueError abs_gm) ∧ w' = w)).
Proof.
  intros i abs_sdr abs_gm Hf Hr.
  pose proof (λ e, rejected i d w r w' e Hf Hr) as H.
  cbn [can_make i] in H. unfold prepared in H. cbn [created_dirs foldr i] in H.
  rewrite same_world in H.
  unfold rejection, not_jpeg, is_jpeg, file_at in *. cbn [first_error i] in *.
  fold abs_sdr abs_gm in H.
  destruct (nodes w !! resolve w abs_sdr) as [[S|]|] eqn:ES.
  - split; [done|]. split.
    + intros S' [= <-] HS. rewrite bool_decide_eq_false_2 in H by done. eauto.
    + intros HS. rewrite HS in H.
      destruct (nodes w !! resolve w abs_gm) as [[G|]|] eqn:EG.
      * split; [done|]. intros G' [= <-] HG.
        rewrite bool_decide_eq_false_2 in H by done. eauto.
      * split; [done|]. intros G' [=].
      * split; [eauto|]. intros G' [=].
  - split; [done|]. split; [intros S' [=]|done].
  - split; [eauto|]. split; [intros S' [=]|done].
Qed.







(** X9.  ExifTool is run at most twice by a call, each time with the
    command line of the entry point, on the copy of the primary image in
    the temporary directory and with the descriptor written there, never
    on an input or on the output path.  The first run starts from the
    bytes of the primary image.  No run follows a run that failed, and a
    call that returns normally has made two runs, both with exit status 0. *)
Theorem exiftool_runs i d w r w' :
  fresh w i d = true → run i d w = (r, w') →
  ∃ l, calls w' = calls w ++ l ∧ (List.length l ≤ 2)%nat
    ∧ Forall (λ c, argv c = command i d
                   ∧ List.last (argv c) EmptyString = Path.join d (tmp_image i)
                   ∧ xmp_argument (argv c) = Path.join d (tmp_xmp i)) l
    ∧ (∀ c, head l = Some c → file_at w (primary_key w i) = Some (before c))
    ∧ (∀ j c, l !! j = Some c → returncode (after c) ≠ 0%Z →
              S j = List.length l)
    ∧ (r = Ok () →
       List.length l = 2 ∧ Forall (λ c, returncode (after c) = 0%Z) l).
Proof.
  intros Hf Hr.
  assert (Hcmd : ∀ img, (argv (first_run w i d img) = command i d
                   ∧ List.last (argv (first_run w i d img)) EmptyString
                     = Path.join d (tmp_image i)
                   ∧ xmp_argument (argv (first_run w i d img))
                     = Path.join d (tmp_xmp i))
                 ∧ (argv (second_run w i d img) = command i d
                   ∧ List.last (argv (second_run w i d img)) EmptyString
                     = Path.join d (tmp_image i)
                   ∧ xmp_argument (argv (second_run w i d img))
                     = Path.join d (tmp_xmp i))).
  { intros img. unfold first_run, second_run. cbn [argv].
    by destruct i. }
  destruct (run_ends i d w r w' Hf Hr)
    as [Hnr [e ->] Hc _|img _ Himg H1 -> Hc _|img _ Himg H1 H2 -> Hc _
       |img _ Himg H1 H2 Hc _].
  - exists []. rewrite app_nil_r. split; [done|]. split; [cbn; lia|].
    split; [constructor|]. split; [by intros c [=]|].
    split; [intros j c Hj; by rewrite lookup_nil in Hj|done].
  - exists [first_run w i d img]. split; [done|]. split; [cbn; lia|].
    split; [repeat constructor; apply Hcmd|].
    split; [by intros c [= <-]|].
    split; [|done].
    intros [|j] c Hj; [done|]. by rewrite lookup_cons, lookup_nil in Hj.
  - exists [first_run w i d img; second_run w i d img].
    split; [done|]. split; [cbn; lia|].
    split; [repeat constructor; apply Hcmd|].
    split; [by intros c [= <-]|].
    split; [|done].
    intros [|[|j]] c Hj Hrc; [|done|by rewrite !lookup_cons, lookup_nil in Hj].
    injection Hj as <-. done.
  - exists [first_run w i d img; second_run w i d img].
    split; [done|]. split; [cbn; lia|].
    split; [repeat constructor; apply Hcmd|].
    split; [by intros c [= <-]|].
    split.
    + intros [|[|j]] c Hj Hrc;
        [|done|by rewrite !lookup_cons, lookup_nil in Hj].
      injection Hj as <-. done.
    + intros _. split; [done|]. by repeat constructor.
Qed.

(** X10.  The gain-map entry point hands ExifTool the same descriptor and
    the same command line twice: its template does not use the measured
    size, so the second run differs from the first only in the image it
    starts from, which is the one the first run left. *)
Theorem ultrahdr_second_pass sdr gainmap out params d w r w' c1 c2 :
  let i := UltraHdr sdr gainmap out params in
  fresh w i d = true → run i d w = (r, w') →
  calls w' = calls w ++ [c1; c2] →
  descriptor c2 = descriptor c1 ∧ argv c2 = argv c1
  ∧ before c2 = image (after c1).
Proof.
  intros i Hf Hr Hc.
  assert (∃ img, c1 = first_run w i d img ∧ c2 = second_run w i d img)
    as (img & -> & ->).
  { destruct (run_ends i d w r w' Hf Hr)
      as [? ? Hc'|img ? ? ? ? Hc'|img ? ? ? ? ? Hc'|img ? ? ? ? Hc'];
      rewrite Hc in Hc'.
    - by apply not_no_call in Hc'.
    - by apply not_one_call in Hc'.
    - exists img. by apply two_calls in Hc'.
    - exists img. by apply two_calls in Hc'. }
  repeat split.
Qed.

(** A numeral printed for a length reads back as that length. *)
Lemma int_of_text_str_int n : int_of_text (str_int n) = Some n.
Proof.
  unfold int_of_text, str_int. rewrite NilZero.isi.
  - cbn. by rewrite DecimalZ.of_to.
  - destruct n; cbn; try discriminate.
    intros [= H]. by apply DecimalPos.Unsigned.to_uint_nonnil in H.
  - destruct n; cbn; try discriminate.
    intros [= H]. by apply DecimalPos.Unsigned.to_uint_nonnil in H.
Qed.

(** Writing a text to a file in a directory that is there. *)
Lemma write_text_ok p text w :
  nodes w !! Path.dirname (resolve w p) = Some Dir →
  nodes w !! resolve w p ≠ Some Dir →
  (write_text p text;; mret p) w
  = (Ok p, with_nodes <[resolve w p := File (list_byte_of_string text)]> w).
Proof.
  intros Hd Hk. rewrite run_bind.
  unfold write_text, write_binary, open_write. rewrite Hd.
  destruct (nodes w !! resolve w p) as [[?|]|];
    [reflexivity|congruence|reflexivity].
Qed.

(** X11.  The three functions that write the descriptor.  In a directory
    that is there, each writes the text of its template, from which
    [strip()] removes nothing, to its file, whatever the file held, and
    returns the path of the file; nothing else changes.  A reader of the
    file finds the lengths the function was given, except that the
    gain-map template declares 0 for the Primary item. *)
Theorem descriptor_file i n ls tmp_dir w :
  let p := Path.join tmp_dir (tmp_xmp i) in
  let k := resolve w p in
  nodes w !! Path.dirname k = Some Dir → nodes w !! k ≠ Some Dir →
  ∃ data,
    create_descriptor i n ls tmp_dir w
    = (Ok p, with_nodes <[k := File data]> w)
    ∧ text_of data
      = match i with
        | MotionPhoto _ _ _ => GenMotionPhoto.xmp_content n (nth 0 ls 0%Z)
        | UltraHdr _ _ _ params =>
            GenUltraHDRPhoto.xmp_content n (nth 0 ls 0%Z) params
        | HdrMotion _ _ _ _ params =>
            GenUltraHdrMotionPhoto.xmp_content n (nth 0 ls 0%Z)
              (nth 1 ls 0%Z) params
        end
    ∧ (λ it, int_of_text (Length it)) <$> directory (text_of data)
      = match i with
        | MotionPhoto _ _ _ => [Some n; Some (nth 0 ls 0%Z)]
        | UltraHdr _ _ _ _ => [Some 0%Z; Some (nth 0 ls 0%Z)]
        | HdrMotion _ _ _ _ _ =>
            [Some n; Some (nth 0 ls 0%Z); Some (nth 1 ls 0%Z)]
        end.
Proof.
  intros p k Hd Hk.
  exists (list_byte_of_string (descriptor_text i n ls)).
  split; [|split].
  - destruct i; exact (write_text_ok _ _ w Hd Hk).
  - unfold text_of. rewrite TextFacts.text_of_bytes.
    destruct i as [? ? ?|? ? ? q|? ? ? ? q].
    + exact (proj1 (Descriptors.motion_reading n (nth 0 ls 0%Z))).
    + exact (proj1 (Descriptors.ultrahdr_reading n (nth 0 ls 0%Z) q)).
    + exact (proj1 (Descriptors.combined_reading n (nth 0 ls 0%Z)
                      (nth 1 ls 0%Z) q)).
  - unfold text_of. rewrite TextFacts.text_of_bytes, reading.
    destruct i; cbn [fmap list_fmap Length];
      rewrite ?int_of_text_str_int; reflexivity.
Qed.

(** X12.  What the three descriptors hold besides the lengths and the
    tone-mapping values.  The motion photo descriptor marks a motion photo
    of version 1 with presentation time stamp 0; the gain-map descriptor
    gives version 1.0 of the gain-map metadata, both offsets as 0.015625
    and SDR as base rendition; both declare a padding of 0 for each item.
    The combined descriptor marks the motion photo and gives the version
    and the base rendition, but holds no time stamp, no offsets and no
    padding. *)
Theorem descriptor_constants n g v (p : gmap string pyvalue) :
  let m := GenMotionPhoto.xmp_content n v in
  let u := GenUltraHDRPhoto.xmp_content n g p in
  let c := GenUltraHdrMotionPhoto.xmp_content n g v p in
  (element_texts "GCamera:MotionPhoto" m = ["1"]
   ∧ element_texts "GCamera:MotionPhotoVersion" m = ["1"]
   ∧ element_texts "GCamera:MotionPhotoPresentationTimestampUs" m = ["0"]
   ∧ element_texts "Item:Padding" m = ["0"; "0"])
  ∧ (element_texts "hdrgm:Version" u = ["1.0"]
     ∧ element_texts "hdrgm:OffsetSDR" u = ["0.015625"]
     ∧ element_texts "hdrgm:OffsetHDR" u = ["0.015625"]
     ∧ element_texts "hdrgm:BaseRendition" u = ["SDR"]
     ∧ element_texts "Item:Padding" u = ["0"; "0"]
     ∧ element_texts "GCamera:MotionPhoto" u = [])
  ∧ (element_texts "GCamera:MotionPhoto" c = ["1"]
     ∧ element_texts "GCamera:MotionPhotoVersion" c = ["1"]
     ∧ element_texts "hdrgm:Version" c = ["1.0"]
     ∧ element_texts "hdrgm:BaseRendition" c = ["SDR"]
     ∧ element_texts "GCamera:MotionPhotoPresentationTimestampUs" c = []
     ∧ element_texts "hdrgm:OffsetSDR" c = []
     ∧ element_texts "hdrgm:OffsetHDR" c = []
     ∧ element_texts "Item:Padding" c = []).
Proof.
  intros m u c.
  eassert (Hm : m = _).
  { unfold m, GenMotionPhoto.xmp_content. cbn [String.concat].
    rewrite !TextFacts.append_assoc. reflexivity. }
  eassert (Hu : u = _).
  { unfold u, GenUltraHDRPhoto.xmp_content. cbn [String.concat].
    rewrite !TextFacts.append_assoc. reflexivity. }
  eassert (Hc : c = _).
  { unfold c, GenUltraHdrMotionPhoto.xmp_content. cbn [String.concat].
    rewrite !TextFacts.append_assoc. reflexivity. }
  rewrite Hm, Hu, Hc. clear.
  repeat apply conj; scan; reflexivity.
Qed.

(** No output is made where its directory is missing: when the entry
    point makes no directory, nothing is at the output path and the
    directory above it is not there, the file system is after the call
    as it was before, however the call ends. *)
Lemma stays_missing i d w r w' :
  fresh w i d = true → run i d w = (r, w') →
  created_dirs w i = [] →
  nodes w !! output_key w i = None →
  nodes w !! Path.dirname (output_key w i) ≠ Some Dir →
  nodes w' = nodes w.
Proof.
  intros Hf Hr Hdirs Hko Hkod.
  assert (Hp : prepared w i = nodes w) by (unfold prepared; by rewrite Hdirs).
  destruct (run_ends i d w r w' Hf Hr)
    as [_ _ _ Hn|img _ _ _ _ _ Hn|img _ _ _ _ _ _ Hn
       |img Hready Himg H1 H2 _ _].
  - rewrite Hp in Hn. by destruct (can_make w i).
  - congruence.
  - congruence.
  - destruct (finished i d w r w' img Hf Hr Hready Himg H1 H2) as [H _].
    unfold finish, placing in H. rewrite Hp, Hko in H.
    destruct (nodes w !! Path.dirname (output_key w i)) as [[?|]|];
      try done; by destruct H.
Qed.

(** X13.  Run as a script, each file calls its entry point on fixed paths
    and logs whatever exception the call raises: the script itself never
    ends with an exception, and it leaves the world as the call left it.
    [GenUltraHDRPhoto.py] and [GenUltraHdrMotionPhoto.py] write to
    [output1/] and [output/], which they do not make: where that directory
    is missing and nothing is at the output path, the script leaves the
    file system as it was. *)
Theorem scripts_return s d w r w' :
  fresh w (call_of s) d = true → main s d w = (r, w') →
  r = Ok ()
  ∧ w' = (run (call_of s) d w).2
  ∧ (s ≠ GenMotionPhoto_py →
     nodes w !! output_key w (call_of s) = None →
     nodes w !! Path.dirname (output_key w (call_of s)) ≠ Some Dir →
     nodes w' = nodes w).
Proof.
  intros Hf Hm. unfold main, except_exception in Hm.
  destruct (run (call_of s) d w) as [r0 w0] eqn:Hr.
  assert (r = Ok () ∧ w' = w0) as [-> ->].
  { destruct r0 as [[]|e]; by injection Hm as <- <-. }
  split; [done|]. split; [done|].
  intros Hs. apply (stays_missing _ d w r0 w0 Hf Hr).
  by destruct s.
Qed.

(** X14.  A call that fails leaves the output path as it was, whatever
    was there, when every segment is a regular file: the checks, ExifTool
    and the replacement of the old output come before the first write to
    the output path, and only an append can fail after it.  (A regular
    file is taken to lie in a directory.) *)
Theorem failure_keeps_output i d w e w' :
  fresh w i d = true → run i d w = (Raise e, w') →
  output_key w i ∉ segment_keys w i →
  Forall (λ k, is_Some (file_at w k)) (segment_keys w i) →
  (is_Some (file_at w (output_key w i)) →
   prepared w i !! Path.dirname (output_key w i) = Some Dir) →
  file_at w' (output_key w i) = file_at w (output_key w i).
Proof.
  intros Hf Hr Hn Hsegs Hwf.
  destruct (run_ends i d w _ w' Hf Hr)
    as [_ _ _ Hw|img Hready _ _ _ _ Hw|img Hready _ _ _ _ _ Hw
       |img Hready Himg H1 H2 _ _].
  - unfold file_at at 1. rewrite Hw.
    destruct (can_make w i) eqn:Hmk; [|done]. by apply prepared_file.
  - unfold file_at at 1. rewrite Hw.
    by apply prepared_file, ready_can_make.
  - unfold file_at at 1. rewrite Hw.
    by apply prepared_file, ready_can_make.
  - pose proof (ready_can_make w i Hready) as Hmk.
    destruct (finished i d w _ w' img Hf Hr Hready Himg H1 H2) as [H _].
    unfold finish, placing, append_error in H.
    assert (He : first_error (unreadable (prepared w i) w <$> segment_paths w i)
                 = None).
    { apply append_all. rewrite <- segment_keys_paths.
      eapply Forall_impl; [exact Hsegs|]. intros k Hk.
      by rewrite prepared_file. }
    rewrite He in H.
    rewrite <- (prepared_file w i _ Hmk) in Hwf. unfold file_in in Hwf.
    rewrite <- (prepared_file w i _ Hmk). unfold file_at, file_in.
    destruct (prepared w i !! output_key w i) as [[old|]|] eqn:Eo.
    + rewrite Hwf in H by eauto. by destruct (H Hn).
    + destruct H as [_ ->]. by rewrite Eo.
    + destruct (prepared w i !! Path.dirname (output_key w i)) as [[?|]|];
        [destruct H as [_ ->]; by rewrite Eo|by destruct (H Hn)
        |destruct H as [_ ->]; by rewrite Eo].
Qed.






End Behaviour.

(** ** Examples in the small world, continued *)

Module Cases.
Import Text Os Pipeline Runs Detail Behaviour Scripts Demo Examples.


(** The video is passed as the SDR image: it is there, but it is no JPEG
    file. *)
Lemma ultrahdr_input_checks_witness :
  let w := world_with embed in
  let i := UltraHdr "res/IMG.MOV" "res/GM.jpg" "out.jpg" ∅ in
  (run i tmp w).1 = Raise (ValueError "/home/u/res/IMG.MOV")
  ∧ (run i tmp w).2 = w.
Proof.
  intros w i.
  refine (proj1 (proj2 (ultrahdr_input_checks "res/IMG.MOV" "res/GM.jpg"
                          "out.jpg" ∅ tmp w (run i tmp w).1 (run i tmp w).2 _ _))
                mov _ _).
  - evaluate.
  - apply surjective_pairing.
  - evaluate.
  - vm_compute. discriminate.
Defined.







(** The combined entry point with a tool that fails: one run. *)
Lemma exiftool_runs_witness :
  let w := world_with broken in
  let r := (run combined tmp w).1 in
  let w' := (run combined tmp w).2 in
  ∃ l, calls w' = calls w ++ l ∧ (List.length l ≤ 2)%nat
    ∧ Forall (λ c, argv c = command combined tmp
                   ∧ List.last (argv c) EmptyString
                     = Path.join tmp (tmp_image combined)
                   ∧ xmp_argument (argv c) = Path.join tmp (tmp_xmp combined)) l
    ∧ (∀ c, head l = Some c →
            file_at w (primary_key w combined) = Some (before c))
    ∧ (∀ j c, l !! j = Some c → returncode (after c) ≠ 0%Z →
              S j = List.length l)
    ∧ (r = Ok () →
       List.length l = 2 ∧ Forall (λ c, returncode (after c) = 0%Z) l).
Proof.
  intros w r w'. apply (exiftool_runs combined tmp w r w').
  - evaluate.
  - apply surjective_pairing.
Defined.

(** The descriptor of the second build of the motion photo entry point,
    written over the one of the first build. *)
Lemma descriptor_file_witness :
  let w := staged embed in
  let p := "/tmp/tmpk3x9q2ab/motion.xmp" in
  ∃ data,
    create_descriptor motion 1127 [4%Z] tmp w
    = (Ok p, with_nodes <[p := File data]> w)
    ∧ text_of data = GenMotionPhoto.xmp_content 1127 4
    ∧ (λ it, int_of_text (Length it)) <$> directory (text_of data)
      = [Some 1127%Z; Some 4%Z].
Proof.
  intros w p. apply (descriptor_file motion 1127 [4%Z] tmp w).
  - evaluate.
  - vm_compute. discriminate.
Defined.

(** [GenUltraHDRPhoto.py] run where its inputs are and [output1] is not:
    ExifTool is run twice, the script returns, and there is no output. *)
Lemma scripts_return_witness :
  let w := Project.world_with embed in
  let s := GenUltraHDRPhoto_py in
  (main s tmp w).1 = Ok ()
  ∧ nodes (main s tmp w).2 = nodes w
  ∧ List.length (calls (main s tmp w).2) = 2.
Proof.
  intros w s.
  pose proof (scripts_return s tmp w (main s tmp w).1 (main s tmp w).2) as H.
  split; [|split].
  - apply H; [evaluate|apply surjective_pairing].
  - apply H; [evaluate|apply surjective_pairing|discriminate|evaluate|].
    vm_compute. discriminate.
  - evaluate.
Defined.

(** The gain-map entry point in the small world: the two runs are given
    the same descriptor. *)
Lemma ultrahdr_second_pass_witness :
  let w := world_with embed in
  let c1 := first_run w ultrahdr tmp jpg in
  let c2 := second_run w ultrahdr tmp jpg in
  Os.descriptor c2 = Os.descriptor c1 ∧ argv c2 = argv c1
  ∧ before c2 = image (after c1).
Proof.
  intros w c1 c2.
  apply (ultrahdr_second_pass "res/IMG.jpg" "res/GM.jpg" "out.jpg" ∅ tmp w
           (run ultrahdr tmp w).1 (run ultrahdr tmp w).2 c1 c2).
  - evaluate.
  - apply surjective_pairing.
  - evaluate.
Defined.

(** The combined entry point called again, with a tool that fails, on
    the world a first call left: the output of the first call stays. *)
Lemma failure_keeps_output_witness :
  let w1 := (run combined tmp (world_with embed)).2 in
  let w := World (nodes w1) (cwd w1) broken [] in
  let w' := (run combined tmp w).2 in
  length <$> file_at w (output_key w combined) = Some 1464
  ∧ file_at w' (output_key w combined) = file_at w (output_key w combined).
Proof.
  intros w1 w w'. split; [evaluate|].
  apply (failure_keeps_output combined tmp w
           (failure (first_run w combined tmp jpg)) w').
  - evaluate.
  - evaluate.
  - decided.
  - decided.
  - intros _. evaluate.
Defined.


End Cases.
